(** * kicaq: board outlines to CAD sketches

    A shallow embedding of [kicaq/__init__.py]: the coordinate mapper
    [Board.p], the shape assembler [Board.convert_shape] and the curve
    helper [bspline], then the accessors of the class around them, followed
    by the properties of these functions.

    Conventions of the embedding.
    - Python [float] is IEEE binary64: Rocq's primitive [float].
    - Python [int] and the board's integer coordinates are [Z]; the board
      tool keeps coordinates in 32 bits, and its subtraction of two points
      is taken here on the integers.
    - A raised exception is the [Raise] outcome; a returned value is
      [Return].
    - The geometry kernel (cadquery's [Sketch], OCP's arrays and curve
      constructor) is outside the repository.  A sketch is modelled by the
      sequence of kernel methods called on [cq.Sketch()], in call order,
      with their arguments: this is all the assembler decides.  Whether the
      kernel accepts a method call or raises is the kernel's affair: the
      assembler is defined over an arbitrary kernel [k], and an exception of
      a method call ends the assembler at that call.  The arrays and the
      curve constructor that [bspline] uses are modelled by their data: an
      array checks its bounds, the constructors build records.
    - [warnings.warn] hands a message to the warnings machinery, before the
      [return] statement is reached; the messages handed over by one call
      are kept next to its outcome, whatever the outcome is. *)

From Stdlib Require Import ZArith Bool String Ascii.
From Stdlib Require Import PrimFloat Uint63 FloatOps FloatAxioms SpecFloat.
From stdpp Require Import base tactics option list strings gmap.

Set Warnings "-inexact-float".

Local Open Scope Z_scope.

(** ** Exceptions and outcomes *)

(** [pcbnew.SHAPE_T_*]: the value of [shape.GetShape()].  The six kinds the
    assembler dispatches on, and any other value of the enumeration. *)
Inductive SHAPE_T : Type :=
  | SHAPE_T_SEGMENT
  | SHAPE_T_RECT
  | SHAPE_T_ARC
  | SHAPE_T_CIRCLE
  | SHAPE_T_POLY
  | SHAPE_T_BEZIER
  | SHAPE_T_OTHER (code : Z).

(** The first four are raised by the statements of the repository; the last
    one is an exception that comes out of a method of a kernel sketch, with
    the name of its class. *)
Inductive exn : Type :=
  | NotImplementedError (s : SHAPE_T)   (* f"unhandled shape type: {s}" *)
  | IndexError                          (* list index out of range *)
  | AssertionError                      (* a failed [assert] *)
  | Standard_OutOfRange                 (* kernel array index outside its bounds *)
  | KernelError (name : string).        (* raised inside a sketch method *)

Inductive outcome (A : Type) : Type :=
  | Return (a : A)
  | Raise (e : exn).
Arguments Return {A} a.
Arguments Raise {A} e.

#[global] Instance outcome_ret : MRet outcome := @Return.
#[global] Instance outcome_bind : MBind outcome := fun A B k m =>
  match m with
  | Return a => k a
  | Raise e => Raise e
  end.

(** A [for] loop whose body may raise: the state is threaded through the
    elements in order and the first exception ends the loop. *)
Fixpoint for_each {S A : Type} (body : S -> A -> outcome S)
    (st : S) (l : list A) : outcome S :=
  match l with
  | [] => Return st
  | a :: rest => st' ← body st a; for_each body st' rest
  end.

(** Python's [enumerate]. *)
Fixpoint enumerate_from {A : Type} (i : Z) (l : list A) : list (Z * A) :=
  match l with
  | [] => []
  | a :: rest => (i, a) :: enumerate_from (i + 1) rest
  end.
Definition enumerate {A : Type} (l : list A) : list (Z * A) := enumerate_from 0 l.

(** ** Board data *)

(** [pcbnew.wxPoint]: a point in board units. *)
Record wxPoint : Type := mk_wxPoint { x : Z; y : Z }.

(** [wxPoint.__sub__] *)
Definition wxPoint_sub (a b : wxPoint) : wxPoint :=
  {| x := a.(x) - b.(x); y := a.(y) - b.(y) |}.

(** A point of the sketch frame: [Tuple[float, float]]. *)
Definition Point2D : Type := float * float.

(** Python's [==] on two such tuples. *)
Definition Point2D_eqb (a b : Point2D) : bool :=
  (a.1 =? b.1)%float && (a.2 =? b.2)%float.


(** [pcbnew.PCB_SHAPE], read through its accessors.  [GetPolyShape] is the
    outline's vertex sequence: [VertexCount()] is its length and
    [CVertex(i).getWxPoint()] its [i]-th element. *)
Record PCB_SHAPE : Type := mk_PCB_SHAPE {
  GetShape : SHAPE_T;
  GetStart : wxPoint;
  GetEnd : wxPoint;
  GetArcMid : wxPoint;
  GetCenter : wxPoint;
  GetRadius : Z;
  GetBezierC1 : wxPoint;
  GetBezierC2 : wxPoint;
  GetPolyShape : list wxPoint
}.

(** The part of [Board] the core reads: [self.center], the auxiliary origin
    fixed by [__init__]. *)
Record Board : Type := mk_Board { center : wxPoint }.

(** ** Geometry kernel *)

(** [gp_Pnt] *)
Definition gp_Pnt : Type := float * float * float.

(** [cq.Vector(v).toPnt()] for a 2-tuple [v]: the third coordinate is 0. *)
Definition Vector_toPnt (v : Point2D) : gp_Pnt := (v.1, v.2, 0%float).

(** [TColgp_Array1OfPnt], [TColStd_Array1OfReal], [TColStd_Array1OfInteger]:
    an array indexed from [Lower] to [Upper]. *)
Record Array1 (A : Type) : Type := mk_Array1 {
  Lower : Z;
  Upper : Z;
  cells : list A
}.
Arguments mk_Array1 {A} _ _ _.
Arguments Lower {A} _.
Arguments Upper {A} _.
Arguments cells {A} _.

Definition Array1_new {A : Type} (dflt : A) (lo hi : Z) : Array1 A :=
  mk_Array1 lo hi (replicate (Z.to_nat (hi - lo + 1)) dflt).

Definition SetValue {A : Type} (i : Z) (v : A) (a : Array1 A) : outcome (Array1 A) :=
  if (Lower a <=? i) && (i <=? Upper a)
  then Return (mk_Array1 (Lower a) (Upper a) (<[Z.to_nat (i - Lower a) := v]> (cells a)))
  else Raise Standard_OutOfRange.

(** [Geom_BSplineCurve(poles, knots, multiplicities, degree)] *)
Record Geom_BSplineCurve : Type := mk_Geom_BSplineCurve {
  Poles : list gp_Pnt;
  Knots : list float;
  Multiplicities : list Z;
  Degree : Z
}.

(** [cq.Edge(BRepBuilderAPI_MakeEdge(curve).Edge())] *)
Record Edge : Type := mk_Edge { curve : Geom_BSplineCurve }.

Module cq.

(** One method call on a sketch. *)
Inductive call : Type :=
  | Arc (p1 p2 p3 : Point2D)
  | Segment (p1 p2 : Point2D)
  | Push (locs : list Point2D)
  | Circle (r : float)
  | Rect (w h : float)
  | Reset
  | AddEdge (e : Edge)
  | Polygon (pts : list Point2D)
  | Assemble.

(** A sketch: the calls made on [cq.Sketch()] that the kernel accepted,
    oldest first. *)
Definition Sketch : Type := list call.
Definition new : Sketch := [].

(** The kernel, as far as the assembler meets it: its answer to a method
    call on a sketch that went through the given calls.  [None]: the call
    is accepted and the method returns the sketch; [Some name]: the method
    raises an exception of the class [name]. *)
Definition Kernel : Type := Sketch -> call -> option string.

Definition invoke (k : Kernel) (s : Sketch) (c : call) : outcome Sketch :=
  match k s c with
  | None => Return (s ++ [c])
  | Some name => Raise (KernelError name)
  end.

Definition arc (k : Kernel) (s : Sketch) (p1 p2 p3 : Point2D) : outcome Sketch :=
  invoke k s (Arc p1 p2 p3).
Definition segment (k : Kernel) (s : Sketch) (p1 p2 : Point2D) : outcome Sketch :=
  invoke k s (Segment p1 p2).
Definition push (k : Kernel) (s : Sketch) (locs : list Point2D) : outcome Sketch :=
  invoke k s (Push locs).
Definition circle (k : Kernel) (s : Sketch) (r : float) : outcome Sketch :=
  invoke k s (Circle r).
Definition rect (k : Kernel) (s : Sketch) (w h : float) : outcome Sketch :=
  invoke k s (Rect w h).
Definition reset (k : Kernel) (s : Sketch) : outcome Sketch :=
  invoke k s Reset.
Definition edge (k : Kernel) (s : Sketch) (e : Edge) : outcome Sketch :=
  invoke k s (AddEdge e).
Definition polygon (k : Kernel) (s : Sketch) (pts : list Point2D) : outcome Sketch :=
  invoke k s (Polygon pts).
Definition assemble (k : Kernel) (s : Sketch) : outcome Sketch :=
  invoke k s Assemble.

(** Several calls, one after the other, up to the first that raises. *)
Definition run (k : Kernel) : Sketch -> list call -> outcome Sketch :=
  for_each (invoke k).

(** A kernel that accepts every call: it stands for the kernel on inputs
    whose calls the kernel accepts. *)
Definition accepting : Kernel := fun _ _ => None.

End cq.

(** ** The curve helper *)

Definition bspline (points : list Point2D) : outcome Edge :=
  if negb (length points =? 4)%nat then Raise AssertionError else
  pnts ← for_each (fun pnts iv => SetValue (iv.1 + 1) (Vector_toPnt iv.2) pnts)
           (Array1_new (0, 0, 0)%float 1 4) (enumerate points);
  knots ← SetValue 1 0%float (Array1_new 0%float 1 2);
  knots ← SetValue 2 1%float knots;
  mults ← SetValue 1 4 (Array1_new 0 1 2);
  mults ← SetValue 2 4 mults;
  Return (mk_Edge (mk_Geom_BSplineCurve (cells pnts) (cells knots) (cells mults) 3)).

(** ** The coordinate mapper and the shape assembler *)

Definition msg_mixed : string :=
  "convert_shape: both complete and incomplete shapes used, shape may be undefined".
Definition msg_multiple : string :=
  "convert_shape: more than 1 complete shapes used, shape may be undefined".

(** The accumulator of [convert_shape]: its three local variables. *)
Record AssemblyState : Type := mk_AssemblyState {
  sketch : cq.Sketch;
  line : bool;
  full : nat
}.

(** [minmax = lambda *l: (min(l), max(l))], which the rectangle branch calls
    on two coordinates. *)
Definition minmax (a b : Z) : Z * Z := (Z.min a b, Z.max a b).

Section Converter.

(** The geometry kernel the sketches belong to. *)
Variable k : cq.Kernel.

(** [iu2mm = pcbnew.Iu2Millimeter]: the board tool's conversion of a
    length in board units to millimetres. *)
Variable iu2mm : Z -> float.

Definition p (self : Board) (l : wxPoint) : Point2D :=
  let rel := wxPoint_sub l self.(center) in
  (iu2mm rel.(x), - iu2mm rel.(y))%float.

(** The body of the [for] loop: one [match] on [shape.GetShape()].  The
    arguments of a method call are evaluated before the call, and a chain of
    calls runs from left to right. *)
Definition convert_step (self : Board) (st : AssemblyState) (shape : PCB_SHAPE)
    : outcome AssemblyState :=
  match GetShape shape with
  | SHAPE_T_ARC =>
      sk ← cq.arc k (sketch st) (p self (GetStart shape)) (p self (GetArcMid shape))
                  (p self (GetEnd shape));
      Return (mk_AssemblyState sk true (full st))
  | SHAPE_T_SEGMENT =>
      sk ← cq.segment k (sketch st) (p self (GetStart shape)) (p self (GetEnd shape));
      Return (mk_AssemblyState sk true (full st))
  | SHAPE_T_CIRCLE =>
      sk ← cq.push k (sketch st) [p self (GetCenter shape)];
      sk ← cq.circle k sk (iu2mm (GetRadius shape));
      Return (mk_AssemblyState sk (line st) (full st + 1)%nat)
  | SHAPE_T_RECT =>
      let start := GetStart shape in
      let end_ := GetEnd shape in
      let xX := minmax start.(x) end_.(x) in
      let yY := minmax start.(y) end_.(y) in
      sk ← cq.push k (sketch st) [p self (GetCenter shape)];
      sk ← cq.rect k sk (iu2mm (xX.2 - xX.1)) (iu2mm (yY.2 - yY.1));
      sk ← cq.reset k sk;
      Return (mk_AssemblyState sk (line st) (full st + 1)%nat)
  | SHAPE_T_BEZIER =>
      e ← bspline (map (p self) [GetStart shape; GetBezierC1 shape;
                                 GetBezierC2 shape; GetEnd shape]);
      sk ← cq.edge k (sketch st) e;
      Return (mk_AssemblyState sk true (full st))
  | SHAPE_T_POLY =>
      let points := map (p self) (GetPolyShape shape) in
      match points !! 0%nat with
      | Some first =>
          sk ← cq.polygon k (sketch st) (points ++ [first]);
          Return (mk_AssemblyState sk (line st) (full st + 1)%nat)
      | None => Raise IndexError
      end
  | SHAPE_T_OTHER _ => Raise (NotImplementedError (GetShape shape))
  end.

Definition convert_loop (self : Board) : AssemblyState -> list PCB_SHAPE -> outcome AssemblyState :=
  for_each (convert_step self).

Definition convert_init : AssemblyState := mk_AssemblyState cq.new false 0.

(** The warnings issued after the loop. *)
Definition convert_warnings (st : AssemblyState) : list string :=
  (if (0 <? full st)%nat && line st then [msg_mixed] else []) ++
  (if (1 <? full st)%nat then [msg_multiple] else []).

(** The warnings issued, and the outcome.  An exception of the loop leaves
    the function before any warning; the [return] statement, which may call
    [assemble], comes after them. *)
Definition convert_shape (self : Board) (shapes : list PCB_SHAPE)
    : list string * outcome cq.Sketch :=
  match convert_loop self convert_init shapes with
  | Raise e => ([], Raise e)
  | Return st =>
      (convert_warnings st,
       if line st then cq.assemble k (sketch st) else Return (sketch st))
  end.

End Converter.

Arguments p iu2mm self l : simpl never.

(** ** The unit conversion of the board tool *)

(** Conversion of a board-range integer to binary64; exact below 2^53. *)
Definition float_of_Z (z : Z) : float :=
  match z with
  | Z0 => 0%float
  | Zpos _ => of_uint63 (Uint63.of_Z z)
  | Zneg _ => (- of_uint63 (Uint63.of_Z (- z)))%float
  end.

(** Modelled from the spec: [pcbnew.Iu2Millimeter] is a function of the board
    tool and not of this repository.  The spec describes it as the fixed
    conversion of the board's integer length unit to floating-point
    millimetres, 1,000,000 units to the millimetre. *)
Definition Iu2Millimeter (iu : Z) : float := (float_of_Z iu / 1000000)%float.


(** ** Vocabulary of the specification *)

(** The category of a shape is fixed by its tag. *)
Inductive ShapeCategory : Type := OPEN | FULL.

Definition category (s : SHAPE_T) : option ShapeCategory :=
  match s with
  | SHAPE_T_ARC | SHAPE_T_SEGMENT | SHAPE_T_BEZIER => Some OPEN
  | SHAPE_T_CIRCLE | SHAPE_T_RECT | SHAPE_T_POLY => Some FULL
  | SHAPE_T_OTHER _ => None
  end.

Definition supported (shape : PCB_SHAPE) : Prop := is_Some (category (GetShape shape)).

Definition is_open (shape : PCB_SHAPE) : bool :=
  match category (GetShape shape) with Some OPEN => true | _ => false end.

Definition is_full (shape : PCB_SHAPE) : bool :=
  match category (GetShape shape) with Some FULL => true | _ => false end.

(** Whether some OPEN primitive occurs, and how many FULL primitives do. *)
Definition has_open (shapes : list PCB_SHAPE) : bool := existsb is_open shapes.
Definition full_count (shapes : list PCB_SHAPE) : nat :=
  length (List.filter is_full shapes).

(** A polygon whose ring can be closed: it has a first vertex.  Every shape
    of another kind passes. *)
Definition ring_closable (shape : PCB_SHAPE) : bool :=
  match GetShape shape, GetPolyShape shape with
  | SHAPE_T_POLY, [] => false
  | _, _ => true
  end.

(** The clamped cubic curve through four control points. *)
Definition cubic (p0 p1 p2 p3 : Point2D) : Edge :=
  mk_Edge (mk_Geom_BSplineCurve
    [Vector_toPnt p0; Vector_toPnt p1; Vector_toPnt p2; Vector_toPnt p3]
    [0%float; 1%float] [4; 4] 3).

(** The accumulator after one more shape, whose calls left the sketch
    [sk]. *)
Definition step_state (sk : cq.Sketch) (st : AssemblyState) (shape : PCB_SHAPE)
    : AssemblyState :=
  mk_AssemblyState sk (line st || is_open shape)
                   (full st + (if is_full shape then 1 else 0))%nat.

Section Vocabulary.

Variable iu2mm : Z -> float.
Variable self : Board.

(** The calls by which a FULL primitive stamps its filled region on the
    sketch. *)
Definition stamp (shape : PCB_SHAPE) : cq.Sketch :=
  match GetShape shape with
  | SHAPE_T_CIRCLE =>
      [cq.Push [p iu2mm self (GetCenter shape)]; cq.Circle (iu2mm (GetRadius shape))]
  | SHAPE_T_RECT =>
      [cq.Push [p iu2mm self (GetCenter shape)];
       cq.Rect (iu2mm (Z.max (GetStart shape).(x) (GetEnd shape).(x)
                       - Z.min (GetStart shape).(x) (GetEnd shape).(x)))
               (iu2mm (Z.max (GetStart shape).(y) (GetEnd shape).(y)
                       - Z.min (GetStart shape).(y) (GetEnd shape).(y)));
       cq.Reset]
  | SHAPE_T_POLY =>
      let ring := map (p iu2mm self) (GetPolyShape shape) in
      [cq.Polygon (ring ++ take 1 ring)]
  | _ => []
  end.

(** The call by which an OPEN primitive appends its edge to the pending
    chain. *)
Definition chain_edge (shape : PCB_SHAPE) : cq.Sketch :=
  match GetShape shape with
  | SHAPE_T_ARC =>
      [cq.Arc (p iu2mm self (GetStart shape)) (p iu2mm self (GetArcMid shape))
              (p iu2mm self (GetEnd shape))]
  | SHAPE_T_SEGMENT =>
      [cq.Segment (p iu2mm self (GetStart shape)) (p iu2mm self (GetEnd shape))]
  | SHAPE_T_BEZIER =>
      [cq.AddEdge (cubic (p iu2mm self (GetStart shape)) (p iu2mm self (GetBezierC1 shape))
                         (p iu2mm self (GetBezierC2 shape)) (p iu2mm self (GetEnd shape)))]
  | _ => []
  end.

(** Every call the shapes make on the sketch, in input order. *)
Definition emitted (shapes : list PCB_SHAPE) : cq.Sketch :=
  flat_map (fun shape => chain_edge shape ++ stamp shape) shapes.


(** The accumulator after a loop that ran to its end over [shapes]. *)
Definition final_state (shapes : list PCB_SHAPE) : AssemblyState :=
  mk_AssemblyState (emitted shapes) (has_open shapes) (full_count shapes).

End Vocabulary.

(** ** Sample inputs *)

Definition origin : wxPoint := mk_wxPoint 0 0.

Definition blank (kind : SHAPE_T) : PCB_SHAPE :=
  mk_PCB_SHAPE kind origin origin origin origin 0 origin origin [].

Definition sample_segment : PCB_SHAPE :=
  mk_PCB_SHAPE SHAPE_T_SEGMENT (mk_wxPoint 0 0) (mk_wxPoint 1000000 0)
               origin origin 0 origin origin [].

Definition sample_circle : PCB_SHAPE :=
  mk_PCB_SHAPE SHAPE_T_CIRCLE origin origin origin (mk_wxPoint 2000000 3000000)
               500000 origin origin [].

Definition sample_rect : PCB_SHAPE :=
  mk_PCB_SHAPE SHAPE_T_RECT (mk_wxPoint 1000000 4000000) (mk_wxPoint 3000000 2000000)
               origin (mk_wxPoint 2000000 3000000) 0 origin origin [].

Definition sample_bezier : PCB_SHAPE :=
  mk_PCB_SHAPE SHAPE_T_BEZIER (mk_wxPoint 0 0) (mk_wxPoint 3000000 0)
               origin origin 0 (mk_wxPoint 1000000 1000000) (mk_wxPoint 2000000 1000000) [].

Definition sample_triangle : PCB_SHAPE :=
  mk_PCB_SHAPE SHAPE_T_POLY origin origin origin origin 0 origin origin
               [mk_wxPoint 0 0; mk_wxPoint 1000000 0; mk_wxPoint 0 1000000].

(** A polygon shape whose outline has no vertex. *)
Definition empty_polygon : PCB_SHAPE := blank SHAPE_T_POLY.

Definition sample_board : Board := mk_Board (mk_wxPoint 1000000 1000000).


(** A kernel that accepts every call but [assemble], which raises a
    [ValueError]: a kernel that makes no face of the edges it was given. *)
Definition no_face : cq.Kernel := fun _ c =>
  match c with
  | cq.Assemble => Some "ValueError"%string
  | _ => None
  end.

(** What the statements of the loop raise by themselves at a shape, if
    anything: the error of a tag outside the six kinds, or the index error of
    a polygon without a first vertex. *)
Definition failure (shape : PCB_SHAPE) : option exn :=
  match GetShape shape with
  | SHAPE_T_OTHER _ => Some (NotImplementedError (GetShape shape))
  | SHAPE_T_POLY =>
      match GetPolyShape shape with
      | [] => Some IndexError
      | _ :: _ => None
      end
  | _ => None
  end.

Fixpoint first_failure (shapes : list PCB_SHAPE) : option exn :=
  match shapes with
  | [] => None
  | shape :: rest =>
      match failure shape with
      | Some e => Some e
      | None => first_failure rest
      end
  end.

(** ** Rectangles given by other corners *)

Definition with_corners (shape : PCB_SHAPE) (start end_ : wxPoint) : PCB_SHAPE :=
  mk_PCB_SHAPE (GetShape shape) start end_ (GetArcMid shape) (GetCenter shape)
               (GetRadius shape) (GetBezierC1 shape) (GetBezierC2 shape)
               (GetPolyShape shape).

(** The same shape with its start and end corners exchanged. *)
Definition exchange_corners (shape : PCB_SHAPE) : PCB_SHAPE :=
  with_corners shape (GetEnd shape) (GetStart shape).

(** The same shape given by its other diagonal: the corners trade their
    horizontal, respectively vertical, coordinates. *)
Definition flip_horizontal (shape : PCB_SHAPE) : PCB_SHAPE :=
  with_corners shape
    (mk_wxPoint (GetEnd shape).(x) (GetStart shape).(y))
    (mk_wxPoint (GetStart shape).(x) (GetEnd shape).(y)).

Definition flip_vertical (shape : PCB_SHAPE) : PCB_SHAPE :=
  with_corners shape
    (mk_wxPoint (GetStart shape).(x) (GetEnd shape).(y))
    (mk_wxPoint (GetEnd shape).(x) (GetStart shape).(y)).
(** * The rest of the class *)

(** ** Python strings *)

(** A [str] that is read character by character; the characters are
    taken among the 256 of [ascii], which hold every character the class
    writes itself. *)
Definition str : Type := list ascii.

(** A string literal. *)
Definition lit (s : string) : str := list_ascii_of_string s.

(** [s.startswith(t)] and [s.endswith(t)] *)
Definition startswith (s t : str) : bool := bool_decide (t `prefix_of` s).
Definition endswith (s t : str) : bool := bool_decide (t `suffix_of` s).

(** [t in s] *)
Fixpoint contains (s t : str) : bool :=
  startswith s t || match s with [] => false | _ :: rest => contains rest t end.

(** [s.replace(old, new)] scans [s] from the left: where [old] begins, [new]
    is written and the scan resumes behind that occurrence ([skip] counts the
    characters of it still to pass); elsewhere one character is copied. *)
Fixpoint replace_from (old new : str) (skip : nat) (s : str) : str :=
  match s with
  | [] => []
  | c :: rest =>
      match skip with
      | S k => replace_from old new k rest
      | O => if startswith s old
             then new ++ replace_from old new (length old - 1) rest
             else c :: replace_from old new 0 rest
      end
  end.

(** With an empty [old], [new] is written before every character and at the
    end. *)
Definition replace (s old new : str) : str :=
  match old with
  | [] => new ++ flat_map (fun c => c :: new) s
  | _ :: _ => replace_from old new 0 s
  end.

(** ** Paths of 3D models *)

(** The [envars] dictionary, in insertion order. *)
Definition envars : list (str * str) :=
  [(lit "KIPRJMOD", lit ".");
   (lit "KICAD6_3DMODEL_DIR", lit "/usr/share/kicad/3dmodels")].

(** The f-string [f"${{{k}}}"]. *)
Definition placeholder (k : str) : str := lit "${" ++ k ++ lit "}".

Definition trans_model_path (p : str) : str :=
  let p := foldl (fun p kv => replace p (placeholder kv.1) kv.2) p envars in
  if endswith p (lit ".wrl") then take (length p - 4) p ++ lit ".step" else p.

(** The last statement of [trans_model_path] on its own. *)
Definition swap_extension (q : str) : str :=
  if endswith q (lit ".wrl") then take (length q - 4) q ++ lit ".step" else q.

(** ** Python's [max] on floats *)

(** [max(a, b)]: the second argument wins only when it is greater. *)
Definition max2 (a b : float) : float := if (a <? b)%float then b else a.

(** [max(iterable)]: [None] stands for the [ValueError] on an empty one. *)
Definition py_max (l : list float) : option float :=
  match l with
  | [] => None
  | a :: rest => Some (foldl max2 a rest)
  end.

(** ** The board and its footprints *)

(** A graphic item [g]: the layer it is drawn on, and the shape accessors the
    assembler reads.  Following the signatures of [layer_raw] and
    [layer_raw_of], the items are shapes. *)
Record Drawing : Type := mk_Drawing {
  GetLayer : Z;
  as_shape : PCB_SHAPE
}.

(** [pcbnew.FP_3DMODEL]: [m_Filename] and [m_Offset.z]. *)
Record FP_3DMODEL : Type := mk_FP_3DMODEL {
  m_Filename : str;
  m_Offset_z : float
}.

(** [pcbnew.FOOTPRINT] *)
Record FOOTPRINT : Type := mk_FOOTPRINT {
  GetReference : string;
  GetValue : string;
  GetPosition : wxPoint;
  GraphicalItems : list Drawing;
  Models : list FP_3DMODEL
}.

(** [pcbnew.BOARD].  [FindFootprintByReference] is the board tool's lookup;
    it answers [None] for a reference it does not find.  [GetAuxOrigin] stands
    for [GetDesignSettings().GetAuxOrigin()]. *)
Record BOARD : Type := mk_BOARD {
  GetDrawings : list Drawing;
  GetFootprints : list FOOTPRINT;
  FindFootprintByReference : string -> option FOOTPRINT;
  GetAuxOrigin : wxPoint
}.

(** A [Board] object with both its attributes: [self.board], and [self.center]
    in [core]. *)
Record BoardObject : Type := mk_BoardObject {
  board : BOARD;
  core : Board
}.

(** [Component = Union[str, pcbnew.FOOTPRINT]], told apart by [isinstance]. *)
Inductive Component : Type :=
  | Ref (r : string)
  | Fp (f : FOOTPRINT).

(** Exceptions of the accessors: an attribute read on [None], [max] of an
    empty sequence, and whatever the assembler raises. *)
Inductive error : Type :=
  | AttributeError
  | ValueError
  | Core (e : exn).

Inductive result (A : Type) : Type :=
  | Ok (a : A)
  | Err (e : error).
Arguments Ok {A} a.
Arguments Err {A} e.

Definition lift {A : Type} (m : outcome A) : result A :=
  match m with
  | Return a => Ok a
  | Raise e => Err (Core e)
  end.

Section Accessors.

(** The geometry kernel of the sketches, and the unit conversion. *)
Variable k : cq.Kernel.
Variable iu2mm : Z -> float.

(** [pcbnew.Edge_Cuts], [pcbnew.F_CrtYd], [pcbnew.B_CrtYd]: layer numbers of
    the board tool. *)
Variables Edge_Cuts F_CrtYd B_CrtYd : Z.

(** [pcbnew.LoadBoard] *)
Variable LoadBoard : string -> BOARD.

(** [cq.importers.importStep(path).faces(">Z").val().Center().z]: the height
    of the top face of the solid stored at [path]; [None] when any part of it
    raises. *)
Variable importStep_top : str -> option float.

Definition Board_init (name : string) : BoardObject :=
  let b := LoadBoard name in
  mk_BoardObject b (mk_Board (GetAuxOrigin b)).

Definition fp (self : BoardObject) (comp : Component) : option FOOTPRINT :=
  match comp with
  | Fp f => Some f
  | Ref r => FindFootprintByReference (board self) r
  end.

Definition fps (self : BoardObject) : list FOOTPRINT := GetFootprints (board self).

Definition fps_where (self : BoardObject) (f : FOOTPRINT -> bool) : list FOOTPRINT :=
  List.filter f (fps self).

Definition fps_with_val (self : BoardObject) (v : string) : list FOOTPRINT :=
  fps_where self (fun f => String.eqb (GetValue f) v).

Definition ref (comp : Component) : string :=
  match comp with
  | Fp f => GetReference f
  | Ref r => r
  end.

Definition pos (self : BoardObject) (comp : Component) : result Point2D :=
  match fp self comp with
  | Some f => Ok (p iu2mm (core self) (GetPosition f))
  | None => Err AttributeError
  end.

Definition layer_raw (self : BoardObject) (layer_id : Z) : list Drawing :=
  List.filter (fun g => GetLayer g =? layer_id) (GetDrawings (board self)).

Definition layer (self : BoardObject) (layer_id : Z) : list string * outcome cq.Sketch :=
  convert_shape k iu2mm (core self) (map as_shape (layer_raw self layer_id)).

Definition edges (self : BoardObject) : list string * outcome cq.Sketch :=
  layer self Edge_Cuts.

Definition edges_raw (self : BoardObject) : list Drawing :=
  layer_raw self Edge_Cuts.

Definition layer_raw_of (self : BoardObject) (comp : Component) (layer_id : Z)
    : result (list Drawing) :=
  match fp self comp with
  | Some f => Ok (List.filter (fun g => GetLayer g =? layer_id) (GraphicalItems f))
  | None => Err AttributeError
  end.

(** The attribute error of an unknown reference comes before the assembler
    is called, hence before any warning. *)
Definition layer_of (self : BoardObject) (comp : Component) (layer_id : Z)
    : list string * result cq.Sketch :=
  match layer_raw_of self comp layer_id with
  | Ok items =>
      let r := convert_shape k iu2mm (core self) (map as_shape items) in
      (r.1, lift r.2)
  | Err e => ([], Err e)
  end.

Definition courtyard_raw (self : BoardObject) (comp : Component) (front : bool)
    : result (list Drawing) :=
  layer_raw_of self comp (if front then F_CrtYd else B_CrtYd).

Definition courtyard (self : BoardObject) (comp : Component) (front : bool)
    : list string * result cq.Sketch :=
  match courtyard_raw self comp front with
  | Ok items =>
      let r := convert_shape k iu2mm (core self) (map as_shape items) in
      (r.1, lift r.2)
  | Err e => ([], Err e)
  end.

(** The element the generator in [height] yields for the model [m]. *)
Definition model_top (m : FP_3DMODEL) : option float :=
  z ← importStep_top (trans_model_path (m_Filename m));
  Some (z + m_Offset_z m)%float.

(** The body of the [try] in [height]; [None] when it raises, whatever the
    exception: the handler is a bare [except]. *)
Definition height_try (self : BoardObject) (comp : Component) : option float :=
  f ← fp self comp;
  tops ← mapM model_top (Models f);
  h ← py_max tops;
  Some (h + max2 0.2 (h * 0.1))%float.

Definition height (self : BoardObject) (comp : Component) (def_h : float) : float :=
  match height_try self comp with
  | Some h => h
  | None => def_h
  end.

Definition max_height (self : BoardObject) (hmap : gmap string float) (def_h : float)
    (comps : list Component) : result float :=
  match py_max (map (fun comp =>
                       height self comp
                         (match hmap !! ref comp with
                          | Some h => h
                          | None => def_h
                          end))
                    comps) with
  | Some h => Ok h
  | None => Err ValueError
  end.

End Accessors.

(** A component that [height] cannot measure: it is not on the board, or its
    footprint has no model, or one of its models does not load. *)
Definition unmeasurable (importStep_top : str -> option float)
    (self : BoardObject) (comp : Component) : Prop :=
  fp self comp = None
  \/ exists f, fp self comp = Some f
       /\ (Models f = []
           \/ exists m, m ∈ Models f
                /\ importStep_top (trans_model_path (m_Filename m)) = None).

(** The height [max_height] falls back on for a component. *)
Definition fallback (hmap : gmap string float) (def_h : float) (comp : Component) : float :=
  match hmap !! ref comp with
  | Some h => h
  | None => def_h
  end.

(** ** Boards and shapes moved as a whole *)

Definition wxPoint_add (a d : wxPoint) : wxPoint :=
  {| x := a.(x) + d.(x); y := a.(y) + d.(y) |}.

(** The shape with every point moved by [d]. *)
Definition move_shape (d : wxPoint) (shape : PCB_SHAPE) : PCB_SHAPE :=
  mk_PCB_SHAPE (GetShape shape)
    (wxPoint_add (GetStart shape) d) (wxPoint_add (GetEnd shape) d)
    (wxPoint_add (GetArcMid shape) d) (wxPoint_add (GetCenter shape) d)
    (GetRadius shape)
    (wxPoint_add (GetBezierC1 shape) d) (wxPoint_add (GetBezierC2 shape) d)
    (map (fun v => wxPoint_add v d) (GetPolyShape shape)).

Definition move_board (d : wxPoint) (self : Board) : Board :=
  mk_Board (wxPoint_add (center self) d).

(** The board object with other drawings. *)
Definition with_drawings (self : BoardObject) (drawings : list Drawing) : BoardObject :=
  mk_BoardObject
    (mk_BOARD drawings (GetFootprints (board self))
              (FindFootprintByReference (board self)) (GetAuxOrigin (board self)))
    (core self).

(** The footprint with other graphic items. *)
Definition with_items (f : FOOTPRINT) (items : list Drawing) : FOOTPRINT :=
  mk_FOOTPRINT (GetReference f) (GetValue f) (GetPosition f) items (Models f).

(** The footprint with the file name of every model translated beforehand. *)
Definition with_translated_models (f : FOOTPRINT) : FOOTPRINT :=
  mk_FOOTPRINT (GetReference f) (GetValue f) (GetPosition f) (GraphicalItems f)
    (map (fun m => mk_FP_3DMODEL (trans_model_path (m_Filename m)) (m_Offset_z m))
         (Models f)).

(** ** More sample inputs *)

Definition sample_footprint : FOOTPRINT :=
  mk_FOOTPRINT "U1" "MCU" (mk_wxPoint 3000000 500000)
    [mk_Drawing 47 sample_rect; mk_Drawing 46 sample_circle; mk_Drawing 47 sample_segment]
    [mk_FP_3DMODEL (lit "${KICAD6_3DMODEL_DIR}/Package_QFP.3dshapes/LQFP-48.wrl") 0;
     mk_FP_3DMODEL (lit "${KIPRJMOD}/models/shield.step") 0.5].

Definition bare_footprint : FOOTPRINT :=
  mk_FOOTPRINT "H1" "MountingHole" (mk_wxPoint 1000000 1000000) [] [].

Definition sample_BOARD : BOARD :=
  mk_BOARD
    [mk_Drawing 44 sample_circle; mk_Drawing 40 (blank (SHAPE_T_OTHER 6));
     mk_Drawing 44 sample_rect]
    [sample_footprint; bare_footprint]
    (fun r => List.find (fun f => String.eqb (GetReference f) r)
                        [sample_footprint; bare_footprint])
    (mk_wxPoint 1000000 1000000).

Definition sample_object : BoardObject :=
  mk_BoardObject sample_BOARD (mk_Board (GetAuxOrigin sample_BOARD)).

(** A model store that knows two files. *)
Definition sample_store (path : str) : option float :=
  if bool_decide (path = lit "/usr/share/kicad/3dmodels/Package_QFP.3dshapes/LQFP-48.step")
  then Some 1.5%float
  else if bool_decide (path = lit "./models/shield.step") then Some 2%float
  else None.

Definition sample_hmap : gmap string float := {[ "H1"%string := 3%float ]}.

(** * Properties *)

(** ** Loops and outcomes *)

Lemma for_each_app {S A : Type} (body : S -> A -> outcome S) (l1 l2 : list A) :
  forall st, for_each body st (l1 ++ l2) = (for_each body st l1 ≫= fun st' => for_each body st' l2).
Proof.
  induction l1 as [|a l1 IH]; intros st; simpl.
  - reflexivity.
  - destruct (body st a) as [st'|e]; simpl.
    + apply IH.
    + reflexivity.
Qed.

(** ** Calls on the kernel *)

Lemma invoke_Return (k : cq.Kernel) (s sk : cq.Sketch) (c : cq.call) :
  cq.invoke k s c = Return sk -> sk = s ++ [c].
Proof. unfold cq.invoke. destruct (k s c); [discriminate | now intros [= <-]]. Qed.

Lemma invoke_Raise (k : cq.Kernel) (s : cq.Sketch) (c : cq.call) (e : exn) :
  cq.invoke k s c = Raise e -> exists name, e = KernelError name.
Proof. unfold cq.invoke. destruct (k s c) as [name|]; [|discriminate]. intros [= <-]. eauto. Qed.

Lemma run_app (k : cq.Kernel) (c1 c2 : list cq.call) (s : cq.Sketch) :
  cq.run k s (c1 ++ c2) = (cq.run k s c1 ≫= fun s' => cq.run k s' c2).
Proof. apply for_each_app. Qed.

Lemma run_Return (k : cq.Kernel) (calls : list cq.call) :
  forall s sk, cq.run k s calls = Return sk -> sk = s ++ calls.
Proof.
  unfold cq.run. induction calls as [|c calls IH]; intros s sk; simpl.
  - intros [= <-]. now rewrite app_nil_r.
  - destruct (cq.invoke k s c) as [s'|e] eqn:E; simpl; [|discriminate].
    intros H. apply IH in H as ->. apply invoke_Return in E as ->.
    now rewrite <- app_assoc.
Qed.

Lemma run_Raise (k : cq.Kernel) (calls : list cq.call) :
  forall s e, cq.run k s calls = Raise e -> exists name, e = KernelError name.
Proof.
  unfold cq.run. induction calls as [|c calls IH]; intros s e; simpl.
  - discriminate.
  - destruct (cq.invoke k s c) as [s'|e'] eqn:E; simpl.
    + apply IH.
    + intros [= <-]. now apply invoke_Raise in E.
Qed.

Lemma run_accepting (calls : list cq.call) :
  forall s, cq.run cq.accepting s calls = Return (s ++ calls).
Proof.
  unfold cq.run. induction calls as [|c calls IH]; intros s; simpl.
  - now rewrite app_nil_r.
  - unfold cq.invoke at 1. cbn [cq.accepting]. simpl. rewrite IH.
    now rewrite <- app_assoc.
Qed.

(** ** The curve helper on four points *)

Lemma bspline_four (p0 p1 p2 p3 : Point2D) :
  bspline [p0; p1; p2; p3] = Return (cubic p0 p1 p2 p3).
Proof. reflexivity. Qed.

Lemma length_four {A : Type} (l : list A) :
  length l = 4%nat -> exists a b c d, l = [a; b; c; d].
Proof.
  destruct l as [|a [|b [|c [|d [|e l]]]]]; simpl; intros H; try discriminate H.
  now exists a, b, c, d.
Qed.

Lemma bspline_short (points : list Point2D) :
  length points <> 4%nat -> bspline points = Raise AssertionError.
Proof.
  intros H. unfold bspline.
  destruct (Nat.eqb_spec (length points) 4) as [E|E]; [contradiction|reflexivity].
Qed.

(** ** One step of the loop *)

Section Steps.

Variable k : cq.Kernel.
Variable iu2mm : Z -> float.
Variable self : Board.

(** A step raises what its own statements raise at the shape; otherwise it
    makes the calls of the shape on the kernel, and goes on if they are
    accepted. *)
Lemma convert_step_spec (st : AssemblyState) (shape : PCB_SHAPE) :
  convert_step k iu2mm self st shape =
    match failure shape with
    | Some e => Raise e
    | None =>
        sk ← cq.run k (sketch st) (chain_edge iu2mm self shape ++ stamp iu2mm self shape);
        Return (step_state sk st shape)
    end.
Proof.
  destruct st as [sk ln fl].
  destruct shape as [kind start end_ mid ctr radius c1 c2 poly].
  unfold convert_step, failure, step_state, is_open, is_full, chain_edge, stamp, cq.run,
    cq.arc, cq.segment, cq.push, cq.circle, cq.rect, cq.reset, cq.edge, cq.polygon, minmax.
  destruct kind; cbn -[cq.invoke bspline]; rewrite ?bspline_four; cbn -[cq.invoke];
    try reflexivity.
  - destruct (cq.invoke k sk _); cbn -[cq.invoke];
      now rewrite ?orb_true_r, ?Nat.add_0_r.
  - destruct (cq.invoke k sk _) as [s1|]; cbn -[cq.invoke]; [|reflexivity].
    destruct (cq.invoke k s1 _) as [s2|]; cbn -[cq.invoke]; [|reflexivity].
    destruct (cq.invoke k s2 _); cbn -[cq.invoke]; now rewrite ?orb_false_r.
  - destruct (cq.invoke k sk _); cbn -[cq.invoke];
      now rewrite ?orb_true_r, ?Nat.add_0_r.
  - destruct (cq.invoke k sk _) as [s1|]; cbn -[cq.invoke]; [|reflexivity].
    destruct (cq.invoke k s1 _); cbn -[cq.invoke]; now rewrite ?orb_false_r.
  - destruct poly as [|v vs]; cbn -[cq.invoke]; [reflexivity|].
    destruct (cq.invoke k sk _); cbn -[cq.invoke]; now rewrite ?orb_false_r.
  - destruct (cq.invoke k sk _); cbn -[cq.invoke];
      now rewrite ?orb_true_r, ?Nat.add_0_r.
Qed.

Lemma convert_loop_spec (shapes : list PCB_SHAPE) :
  forall st,
    first_failure shapes = None ->
    convert_loop k iu2mm self st shapes =
      (sk ← cq.run k (sketch st) (emitted iu2mm self shapes);
       Return (mk_AssemblyState sk (line st || has_open shapes)
                                (full st + full_count shapes)%nat)).
Proof.
  unfold convert_loop.
  induction shapes as [|shape rest IH]; intros st.
  - intros _. destruct st as [sk ln fl]; simpl.
    now rewrite orb_false_r, Nat.add_0_r.
  - cbn [for_each first_failure]. rewrite convert_step_spec.
    destruct (failure shape) as [e|]; [discriminate|]. intros Hrest.
    change (emitted iu2mm self (shape :: rest))
      with ((chain_edge iu2mm self shape ++ stamp iu2mm self shape)
            ++ emitted iu2mm self rest).
    rewrite (run_app k (chain_edge iu2mm self shape ++ stamp iu2mm self shape)).
    destruct (cq.run k (sketch st) (chain_edge iu2mm self shape ++ stamp iu2mm self shape))
      as [sk|e]; simpl; [|reflexivity].
    rewrite (IH _ Hrest). cbn [step_state sketch line full].
    destruct (cq.run k sk (emitted iu2mm self rest)) as [sk'|e]; simpl; [|reflexivity].
    unfold full_count. cbn [List.filter].
    rewrite orb_assoc.
    destruct (is_full shape); simpl; rewrite ?Nat.add_0_r, <- ?Nat.add_assoc; reflexivity.
Qed.

(** A loop that returns met no failure of its own. *)
Lemma convert_loop_Return (shapes : list PCB_SHAPE) :
  forall st st', convert_loop k iu2mm self st shapes = Return st' ->
                 first_failure shapes = None.
Proof.
  unfold convert_loop.
  induction shapes as [|shape rest IH]; intros st st'; simpl; [reflexivity|].
  rewrite convert_step_spec.
  destruct (failure shape) as [e|]; [discriminate|].
  destruct (cq.run k (sketch st) _) as [sk|e]; simpl; [|discriminate].
  apply IH.
Qed.

(** What a loop raises is the failure of one of the shapes or comes from
    the kernel. *)
Lemma convert_loop_Raise (shapes : list PCB_SHAPE) :
  forall st e, convert_loop k iu2mm self st shapes = Raise e ->
    (exists shape, shape ∈ shapes /\ failure shape = Some e)
    \/ (exists name, e = KernelError name).
Proof.
  unfold convert_loop.
  induction shapes as [|shape rest IH]; intros st e; simpl; [discriminate|].
  rewrite convert_step_spec.
  destruct (failure shape) as [e'|] eqn:Ef.
  - intros [= <-]. left. exists shape. split; [left | exact Ef].
  - destruct (cq.run k (sketch st) _) as [sk|e'] eqn:Er; simpl.
    + intros H. destruct (IH _ _ H) as [(shape' & Hin & Hf)|Hk]; [left|now right].
      exists shape'. split; [now right | exact Hf].
    + intros [= <-]. right. now apply run_Raise in Er.
Qed.

(** The loop returns exactly when no shape fails by itself and the kernel
    accepts every call the shapes make; the accumulator is then fixed by the
    shapes. *)
Lemma convert_loop_complete (shapes : list PCB_SHAPE) (st : AssemblyState) :
  convert_loop k iu2mm self convert_init shapes = Return st <->
  first_failure shapes = None
  /\ cq.run k cq.new (emitted iu2mm self shapes) = Return (emitted iu2mm self shapes)
  /\ st = final_state iu2mm self shapes.
Proof.
  split.
  - intros H. pose proof (convert_loop_Return _ _ _ H) as Hf.
    rewrite (convert_loop_spec _ _ Hf) in H. cbn [convert_init sketch line full] in H.
    destruct (cq.run k cq.new _) as [sk|e] eqn:Er; simpl in H; [|discriminate].
    apply run_Return in Er as ->. injection H as <-. auto.
  - intros (Hf & Hr & ->). rewrite (convert_loop_spec _ _ Hf).
    cbn [convert_init sketch line full]. rewrite Hr. reflexivity.
Qed.

(** From any accumulator: a loop that returns added the calls of the shapes
    to the sketch. *)
Lemma convert_loop_from (shapes : list PCB_SHAPE) (st st' : AssemblyState) :
  convert_loop k iu2mm self st shapes = Return st' ->
  st' = mk_AssemblyState (sketch st ++ emitted iu2mm self shapes)
                         (line st || has_open shapes)
                         (full st + full_count shapes)%nat.
Proof.
  intros H. pose proof (convert_loop_Return _ _ _ H) as Hf.
  rewrite (convert_loop_spec _ _ Hf) in H.
  destruct (cq.run k (sketch st) _) as [sk|e] eqn:Er; simpl in H; [|discriminate].
  apply run_Return in Er as ->. now injection H as <-.
Qed.

(** What [convert_shape] answers after a loop that returned, and after one
    that raised. *)
Lemma convert_shape_Return (shapes : list PCB_SHAPE) (st : AssemblyState) :
  convert_loop k iu2mm self convert_init shapes = Return st ->
  convert_shape k iu2mm self shapes =
    (convert_warnings st,
     if line st then cq.assemble k (sketch st) else Return (sketch st)).
Proof. intros H. unfold convert_shape. now rewrite H. Qed.

Lemma convert_shape_Raise (shapes : list PCB_SHAPE) (e : exn) :
  convert_loop k iu2mm self convert_init shapes = Raise e ->
  convert_shape k iu2mm self shapes = ([], Raise e).
Proof. intros H. unfold convert_shape. now rewrite H. Qed.

(** The loop stops at the first shape that fails by itself, if it gets
    there. *)
Lemma convert_loop_stops (pre post : list PCB_SHAPE) (shape : PCB_SHAPE)
    (st stp : AssemblyState) (e : exn) :
  convert_loop k iu2mm self st pre = Return stp ->
  failure shape = Some e ->
  convert_loop k iu2mm self st (pre ++ shape :: post) = Raise e.
Proof.
  intros Hpre Hf. unfold convert_loop in *. rewrite for_each_app, Hpre. simpl.
  now rewrite convert_step_spec, Hf.
Qed.

End Steps.

(** ** Where the loop stops *)

Lemma failure_unsupported (shape : PCB_SHAPE) :
  ~ supported shape -> failure shape = Some (NotImplementedError (GetShape shape)).
Proof.
  unfold supported, failure. destruct (GetShape shape); simpl; intros H;
    try reflexivity; exfalso; apply H; eexists; reflexivity.
Qed.

Lemma failure_supported (shape : PCB_SHAPE) :
  supported shape ->
  failure shape = if ring_closable shape then None else Some IndexError.
Proof.
  unfold supported, failure, ring_closable.
  destruct (GetShape shape); simpl; intros H; try reflexivity.
  - now destruct (GetPolyShape shape).
  - destruct H as [c H]. discriminate H.
Qed.

Lemma failure_None_supported (shape : PCB_SHAPE) :
  failure shape = None -> supported shape.
Proof.
  unfold supported, failure. destruct (GetShape shape); simpl; intros H;
    try (eexists; reflexivity). discriminate H.
Qed.

Lemma first_failure_supported (shapes : list PCB_SHAPE) :
  Forall supported shapes ->
  first_failure shapes = if forallb ring_closable shapes then None else Some IndexError.
Proof.
  induction 1 as [|shape rest Hs _ IH]; simpl.
  - reflexivity.
  - rewrite (failure_supported _ Hs).
    destruct (ring_closable shape); simpl; [exact IH | reflexivity].
Qed.

Lemma first_failure_unsupported (shapes : list PCB_SHAPE) :
  Exists (fun shape => ~ supported shape) shapes -> first_failure shapes <> None.
Proof.
  induction 1 as [shape rest Hs | shape rest _ IH]; simpl.
  - now rewrite (failure_unsupported _ Hs).
  - destruct (failure shape); [discriminate | exact IH].
Qed.

Lemma first_failure_None (l : list PCB_SHAPE) :
  first_failure l = None <-> Forall (fun shape => failure shape = None) l.
Proof.
  induction l as [|shape rest IH]; simpl.
  - split; [constructor | reflexivity].
  - rewrite Forall_cons. destruct (failure shape) as [e|]; [|tauto].
    split; [discriminate | now intros [H _]].
Qed.

Lemma first_failure_None_supported (l : list PCB_SHAPE) :
  first_failure l = None -> Forall supported l.
Proof.
  rewrite first_failure_None. intros H.
  apply (Forall_impl _ _ _ H). apply failure_None_supported.
Qed.

(** ** What reaches the sketch *)







(** ** The shape assembler: which branch returns *)



(** ** The coordinate mapper *)

Lemma wxPoint_sub_diag (a : wxPoint) : wxPoint_sub a a = origin.
Proof. unfold wxPoint_sub, origin. now rewrite !Z.sub_diag. Qed.

Lemma wxPoint_sub_origin (a : wxPoint) : wxPoint_sub a origin = a.
Proof. destruct a as [ax ay]. unfold wxPoint_sub, origin; simpl. now rewrite !Z.sub_0_r. Qed.


(** C2.  The mapper returns [(iu2mm (l.x - o.x), - iu2mm (l.y - o.y))] for
    every point [l] and origin [o]; it is a total function of the point and
    the origin, so it has no error outcome; and where the unit conversion
    sends 0 to 0, the origin itself is mapped to a point equal to (0, 0)
    (its second coordinate is the negative zero). *)
Theorem p_spec (iu2mm : Z -> float) (self : Board) (l : wxPoint) :
  p iu2mm self l =
    (iu2mm (l.(x) - self.(center).(x)), PrimFloat.opp (iu2mm (l.(y) - self.(center).(y))))
  /\ (forall self', self'.(center) = self.(center) -> p iu2mm self' l = p iu2mm self l)
  /\ (iu2mm 0 = 0%float ->
      Point2D_eqb (p iu2mm self self.(center)) (0, 0)%float = true).
Proof.
  split; [reflexivity|]. split.
  - intros self' Hcenter. unfold p. now rewrite Hcenter.
  - intros H0. unfold p. rewrite wxPoint_sub_diag. simpl. rewrite H0. reflexivity.
Qed.

Lemma p_spec_witness :
  Iu2Millimeter 0 = 0%float
  /\ p Iu2Millimeter sample_board (mk_wxPoint 3000000 500000) = (2, 0.5)%float
  /\ Point2D_eqb (p Iu2Millimeter sample_board (center sample_board)) (0, 0)%float = true.
Proof.
  assert (H0 : Iu2Millimeter 0 = 0%float) by reflexivity.
  split; [exact H0|]. split.
  - rewrite (proj1 (p_spec Iu2Millimeter sample_board (mk_wxPoint 3000000 500000))).
    vm_compute. reflexivity.
  - exact (proj2 (proj2 (p_spec Iu2Millimeter sample_board origin)) H0).
Defined.









(** ** The curve helper *)

(** C4.  On four control points [bspline] returns a curve of degree 3 with
    the two knots 0 and 1, each of multiplicity 4 = degree + 1, whose poles
    are the four points in order: the first pole is the first point and the
    last pole the fourth. *)
Theorem bspline_cubic (points : list Point2D) (H4 : length points = 4%nat) :
  exists e,
    bspline points = Return e
    /\ Degree (curve e) = 3
    /\ Knots (curve e) = [0; 1]%float
    /\ Multiplicities (curve e) = [Degree (curve e) + 1; Degree (curve e) + 1]
    /\ Poles (curve e) = map Vector_toPnt points
    /\ head (Poles (curve e)) = Vector_toPnt <$> head points
    /\ last (Poles (curve e)) = Vector_toPnt <$> points !! 3%nat.
Proof.
  destruct (length_four _ H4) as (p0 & p1 & p2 & p3 & ->).
  exists (cubic p0 p1 p2 p3). rewrite bspline_four. repeat split.
Qed.

Lemma bspline_cubic_witness :
  exists e,
    bspline [(0, 0); (1, 2); (3, 2); (4, 0)]%float = Return e
    /\ Poles (curve e) = [(0, 0, 0); (1, 2, 0); (3, 2, 0); (4, 0, 0)]%float.
Proof.
  destruct (bspline_cubic [(0, 0); (1, 2); (3, 2); (4, 0)]%float eq_refl)
    as (e & He & _ & _ & _ & Hp & _).
  exists e. split; [exact He | exact Hp].
Defined.

(** The cubic-curve branch of the assembler hands the four mapped control
    points to the helper, in the order start, first control, second control,
    end, and the curve it gets to the kernel. *)
Lemma convert_step_bezier (k : cq.Kernel) (iu2mm : Z -> float) (self : Board)
    (st : AssemblyState) (shape : PCB_SHAPE) :
  GetShape shape = SHAPE_T_BEZIER ->
  convert_step k iu2mm self st shape =
    (sk ← cq.edge k (sketch st)
            (cubic (p iu2mm self (GetStart shape)) (p iu2mm self (GetBezierC1 shape))
                   (p iu2mm self (GetBezierC2 shape)) (p iu2mm self (GetEnd shape)));
     Return (mk_AssemblyState sk true (full st))).
Proof. intros H. unfold convert_step. rewrite H. reflexivity. Qed.

(** C5.  [bspline] fails, with the assertion error, exactly when it is given
    a number of control points other than 4; on 4 points it returns. *)
Theorem bspline_precondition (points : list Point2D) :
  (bspline points = Raise AssertionError <-> length points <> 4%nat)
  /\ ((exists e, bspline points = Return e) <-> length points = 4%nat).
Proof.
  destruct (decide (length points = 4%nat)) as [H4|H4].
  - destruct (length_four _ H4) as (p0 & p1 & p2 & p3 & ->).
    rewrite bspline_four. split; split; intros H; try easy.
    now exists (cubic p0 p1 p2 p3).
  - rewrite (bspline_short _ H4). split; split; intros H; try easy.
    destruct H as [e H]. discriminate H.
Qed.

Lemma bspline_precondition_witness :
  bspline [(0, 0); (1, 2); (3, 2)]%float = Raise AssertionError
  /\ bspline [(0, 0); (1, 2); (3, 2); (4, 0); (5, 5)]%float = Raise AssertionError
  /\ bspline [] = Raise AssertionError
  /\ exists e, bspline [(0, 0); (1, 2); (3, 2); (4, 0)]%float = Return e.
Proof.
  split; [|split; [|split]].
  - apply (proj1 (bspline_precondition _)). simpl. lia.
  - apply (proj1 (bspline_precondition _)). simpl. lia.
  - apply (proj1 (bspline_precondition _)). simpl. lia.
  - apply (proj2 (bspline_precondition _)). reflexivity.
Defined.

(** ** Unsupported shape kinds *)

(** An unsupported kind behind a polygon without vertices: whatever the
    kernel, the call fails at the polygon, with the index error, and the
    unsupported kind is never looked at. *)
Lemma unsupported_after_empty_polygon :
  Forall supported [empty_polygon]
  /\ ~ supported (blank (SHAPE_T_OTHER 6))
  /\ (forall k,
        convert_shape k Iu2Millimeter sample_board [empty_polygon; blank (SHAPE_T_OTHER 6)]
        = ([], Raise IndexError))
  /\ (forall k,
        convert_shape k Iu2Millimeter sample_board [empty_polygon; blank (SHAPE_T_OTHER 6)]
        <> ([], Raise (NotImplementedError (SHAPE_T_OTHER 6)))).
Proof.
  split; [|split; [|split]].
  - repeat constructor. eexists; reflexivity.
  - intros [c H]. discriminate H.
  - reflexivity.
  - discriminate.
Qed.

(** C3, as the code has it.  When the loop has run through the shapes
    before an unsupported one without an exception (they are supported, their
    polygons have a first vertex and the kernel accepted their calls), the
    call fails at that shape with the error that carries its kind, and
    without a warning.  Whenever some shape is unsupported the call raises,
    returns no sketch and issues no warning.  On supported shapes alone the
    error of an unsupported kind is never raised. *)
Theorem convert_shape_unsupported (k : cq.Kernel) (iu2mm : Z -> float) (self : Board) :
  (forall pre shape post st,
      convert_loop k iu2mm self convert_init pre = Return st -> ~ supported shape ->
      convert_shape k iu2mm self (pre ++ shape :: post) =
        ([], Raise (NotImplementedError (GetShape shape))))
  /\ (forall pre, (exists st, convert_loop k iu2mm self convert_init pre = Return st) <->
        Forall supported pre /\ forallb ring_closable pre = true
        /\ cq.run k cq.new (emitted iu2mm self pre) = Return (emitted iu2mm self pre))
  /\ (forall shapes,
        Exists (fun shape => ~ supported shape) shapes ->
        exists e, convert_shape k iu2mm self shapes = ([], Raise e))
  /\ (forall shapes,
        Forall supported shapes ->
        forall s, (convert_shape k iu2mm self shapes).2 <> Raise (NotImplementedError s)).
Proof.
  split; [|split; [|split]].
  - intros pre shape post st Hpre Hshape.
    apply convert_shape_Raise.
    apply (convert_loop_stops _ _ _ _ _ _ _ _ _ Hpre). now apply failure_unsupported.
  - intros pre. split.
    + intros [st H]. apply convert_loop_complete in H as (Hf & Hr & _).
      pose proof (first_failure_None_supported _ Hf) as Hs.
      rewrite (first_failure_supported _ Hs) in Hf.
      destruct (forallb ring_closable pre); [auto | discriminate].
    + intros (Hs & Hring & Hr). eexists. apply convert_loop_complete.
      rewrite (first_failure_supported _ Hs), Hring. eauto.
  - intros shapes Hex.
    destruct (convert_loop k iu2mm self convert_init shapes) as [st|e] eqn:E.
    + apply convert_loop_Return in E. now apply first_failure_unsupported in Hex.
    + exists e. now apply convert_shape_Raise.
  - intros shapes Hall s.
    destruct (convert_loop k iu2mm self convert_init shapes) as [st|e] eqn:E.
    + rewrite (convert_shape_Return _ _ _ _ _ E). cbn [snd].
      destruct (line st); [|discriminate].
      intros H. apply invoke_Raise in H as [name H]. discriminate H.
    + rewrite (convert_shape_Raise _ _ _ _ _ E). cbn [snd]. intros [= ->].
      apply convert_loop_Raise in E as [(shape & Hin & Hf)|[name H]]; [|discriminate H].
      rewrite Forall_forall in Hall. rewrite (failure_supported _ (Hall _ Hin)) in Hf.
      destruct (ring_closable shape); discriminate Hf.
Qed.

Lemma convert_shape_unsupported_witness :
  convert_shape cq.accepting Iu2Millimeter sample_board
    ([sample_segment; sample_triangle] ++ blank (SHAPE_T_OTHER 6) :: [sample_circle])
    = ([], Raise (NotImplementedError (SHAPE_T_OTHER 6)))
  /\ (exists e,
        convert_shape cq.accepting Iu2Millimeter sample_board
          [sample_circle; blank (SHAPE_T_OTHER 6)] = ([], Raise e))
  /\ (forall s,
        (convert_shape cq.accepting Iu2Millimeter sample_board
           [sample_segment; empty_polygon]).2
        <> Raise (NotImplementedError s)).
Proof.
  destruct (convert_shape_unsupported cq.accepting Iu2Millimeter sample_board)
    as (H1 & _ & H2 & H3).
  split; [|split].
  - apply (H1 [sample_segment; sample_triangle] (blank (SHAPE_T_OTHER 6)) [sample_circle]
              (final_state Iu2Millimeter sample_board [sample_segment; sample_triangle])).
    + reflexivity.
    + intros [c H]. discriminate H.
  - apply H2. apply Exists_cons_tl, Exists_cons_hd. intros [c H]. discriminate H.
  - apply H3. repeat constructor; eexists; reflexivity.
Defined.

(** ** Rectangles *)

Lemma convert_step_rect (k : cq.Kernel) (iu2mm : Z -> float) (self : Board)
    (st : AssemblyState) (shape : PCB_SHAPE) :
  GetShape shape = SHAPE_T_RECT ->
  convert_step k iu2mm self st shape =
    (sk ← cq.run k (sketch st)
            [cq.Push [p iu2mm self (GetCenter shape)];
             cq.Rect (iu2mm (Z.max (GetStart shape).(x) (GetEnd shape).(x)
                             - Z.min (GetStart shape).(x) (GetEnd shape).(x)))
                     (iu2mm (Z.max (GetStart shape).(y) (GetEnd shape).(y)
                             - Z.min (GetStart shape).(y) (GetEnd shape).(y)));
             cq.Reset];
     Return (mk_AssemblyState sk (line st) (full st + 1)%nat)).
Proof.
  intros H. rewrite convert_step_spec.
  unfold failure, chain_edge, stamp, step_state, is_open, is_full. rewrite H. cbn [app category].
  now rewrite orb_false_r.
Qed.

Lemma convert_step_same_extent (k : cq.Kernel) (iu2mm : Z -> float) (self : Board)
    (shape shape' : PCB_SHAPE) :
  GetShape shape = SHAPE_T_RECT ->
  shape' ∈ [exchange_corners shape; flip_horizontal shape; flip_vertical shape] ->
  forall st, convert_step k iu2mm self st shape' = convert_step k iu2mm self st shape.
Proof.
  intros Hrect Hin st.
  assert (Hrect' : GetShape shape' = SHAPE_T_RECT).
  { repeat (apply elem_of_cons in Hin as [->|Hin]; [exact Hrect|]).
    now apply elem_of_nil in Hin. }
  rewrite (convert_step_rect _ _ _ _ _ Hrect), (convert_step_rect _ _ _ _ _ Hrect').
  repeat (apply elem_of_cons in Hin as [->|Hin];
    [simpl; now rewrite ?(Z.max_comm (x (GetEnd shape))), ?(Z.min_comm (x (GetEnd shape))),
                        ?(Z.max_comm (y (GetEnd shape))), ?(Z.min_comm (y (GetEnd shape)))|]).
  now apply elem_of_nil in Hin.
Qed.

Lemma convert_shape_replace (k : cq.Kernel) (iu2mm : Z -> float) (self : Board)
    (shape shape' : PCB_SHAPE) (pre post : list PCB_SHAPE) :
  (forall st, convert_step k iu2mm self st shape' = convert_step k iu2mm self st shape) ->
  convert_shape k iu2mm self (pre ++ shape' :: post) =
  convert_shape k iu2mm self (pre ++ shape :: post).
Proof.
  intros Hstep. unfold convert_shape, convert_loop. rewrite !for_each_app.
  destruct (for_each (convert_step k iu2mm self) convert_init pre) as [st|e]; [|reflexivity].
  simpl. now rewrite Hstep.
Qed.

(** C6.  A rectangle is emitted with the mapped declared centre, and with a
    width and a height that are the converted differences of the largest and
    the smallest coordinate of its two corners on each axis: on a rectangle
    alone [convert_shape] makes the three calls [push], [rect] and [reset]
    with these arguments, issues no warning, and returns the sketch of
    the three calls when the kernel accepts them.  Exchanging the start and
    the end corner, or giving the rectangle by its other diagonal, leaves the
    answer of [convert_shape] unchanged, wherever the rectangle stands in the
    input. *)
Theorem rect_corner_insensitive (k : cq.Kernel) (iu2mm : Z -> float) (self : Board)
    (shape : PCB_SHAPE) (Hrect : GetShape shape = SHAPE_T_RECT) :
  convert_shape k iu2mm self [shape] =
    ([], cq.run k cq.new
           [cq.Push [p iu2mm self (GetCenter shape)];
            cq.Rect (iu2mm (Z.max (GetStart shape).(x) (GetEnd shape).(x)
                            - Z.min (GetStart shape).(x) (GetEnd shape).(x)))
                    (iu2mm (Z.max (GetStart shape).(y) (GetEnd shape).(y)
                            - Z.min (GetStart shape).(y) (GetEnd shape).(y)));
            cq.Reset])
  /\ ((exists sk, cq.run k cq.new (stamp iu2mm self shape) = Return sk) ->
      convert_shape k iu2mm self [shape] =
        ([], Return [cq.Push [p iu2mm self (GetCenter shape)];
                     cq.Rect (iu2mm (Z.max (GetStart shape).(x) (GetEnd shape).(x)
                                     - Z.min (GetStart shape).(x) (GetEnd shape).(x)))
                             (iu2mm (Z.max (GetStart shape).(y) (GetEnd shape).(y)
                                     - Z.min (GetStart shape).(y) (GetEnd shape).(y)));
                     cq.Reset]))
  /\ forall shape' pre post,
       shape' ∈ [exchange_corners shape; flip_horizontal shape; flip_vertical shape] ->
       convert_shape k iu2mm self (pre ++ shape' :: post) =
       convert_shape k iu2mm self (pre ++ shape :: post).
Proof.
  assert (E : convert_shape k iu2mm self [shape] =
    ([], cq.run k cq.new
           [cq.Push [p iu2mm self (GetCenter shape)];
            cq.Rect (iu2mm (Z.max (GetStart shape).(x) (GetEnd shape).(x)
                            - Z.min (GetStart shape).(x) (GetEnd shape).(x)))
                    (iu2mm (Z.max (GetStart shape).(y) (GetEnd shape).(y)
                            - Z.min (GetStart shape).(y) (GetEnd shape).(y)));
            cq.Reset])).
  { unfold convert_shape, convert_loop. cbn [for_each].
    rewrite (convert_step_rect _ _ _ _ _ Hrect). cbn [convert_init sketch line full].
    destruct (cq.run k cq.new _) as [sk|e]; reflexivity. }
  split; [exact E|]. split.
  - intros [sk Hsk]. rewrite E. unfold stamp in Hsk. rewrite Hrect in Hsk.
    rewrite Hsk. apply run_Return in Hsk as ->. reflexivity.
  - intros shape' pre post Hin. apply convert_shape_replace.
    now apply convert_step_same_extent.
Qed.

Lemma rect_corner_insensitive_witness :
  convert_shape cq.accepting Iu2Millimeter sample_board [sample_rect] =
    ([], Return [cq.Push [(1, -2)%float]; cq.Rect 2 2; cq.Reset])
  /\ convert_shape cq.accepting Iu2Millimeter sample_board
       ([sample_segment] ++ exchange_corners sample_rect :: [sample_bezier]) =
     convert_shape cq.accepting Iu2Millimeter sample_board
       ([sample_segment] ++ sample_rect :: [sample_bezier]).
Proof.
  destruct (rect_corner_insensitive cq.accepting Iu2Millimeter sample_board sample_rect
              eq_refl) as (_ & H1 & H2).
  split.
  - rewrite H1.
    + vm_compute. reflexivity.
    + eexists. reflexivity.
  - apply H2. apply list_elem_of_here.
Defined.

(** ** Diagnostics *)

Lemma msg_distinct : msg_mixed <> msg_multiple.
Proof. discriminate. Qed.

Lemma convert_loop_counts (k : cq.Kernel) (iu2mm : Z -> float) (self : Board)
    (shapes : list PCB_SHAPE) (st : AssemblyState) :
  convert_loop k iu2mm self convert_init shapes = Return st ->
  st = final_state iu2mm self shapes.
Proof. intros H. now apply convert_loop_complete in H. Qed.

Lemma convert_warnings_mixed (st : AssemblyState) :
  msg_mixed ∈ convert_warnings st <-> (0 < full st)%nat /\ line st = true.
Proof.
  pose proof msg_distinct as Hne. unfold convert_warnings.
  destruct (Nat.ltb_spec 0 (full st)), (line st), (Nat.ltb_spec 1 (full st)); simpl;
    rewrite ?elem_of_cons, ?elem_of_nil; intuition (try lia; try congruence).
Qed.

Lemma convert_warnings_multiple (st : AssemblyState) :
  msg_multiple ∈ convert_warnings st <-> (1 < full st)%nat.
Proof.
  pose proof msg_distinct as Hne.
  assert (Hne' : msg_multiple <> msg_mixed) by congruence.
  unfold convert_warnings.
  destruct (Nat.ltb_spec 0 (full st)), (line st), (Nat.ltb_spec 1 (full st)); simpl;
    rewrite ?elem_of_cons, ?elem_of_nil; intuition (try lia; try congruence).
Qed.

Lemma convert_warnings_NoDup (st : AssemblyState) : NoDup (convert_warnings st).
Proof.
  pose proof msg_distinct as Hne. unfold convert_warnings.
  destruct (0 <? full st)%nat, (line st), (1 <? full st)%nat; simpl;
    repeat constructor; rewrite ?elem_of_cons, ?elem_of_nil; intuition congruence.
Qed.

(** Both warnings are issued, and the call ends in the exception of
    [assemble]: no sketch is returned. *)
Lemma warnings_then_exception :
  convert_loop no_face Iu2Millimeter sample_board convert_init
    [sample_circle; sample_segment; sample_rect]
  = Return (final_state Iu2Millimeter sample_board
              [sample_circle; sample_segment; sample_rect])
  /\ convert_shape no_face Iu2Millimeter sample_board
       [sample_circle; sample_segment; sample_rect]
     = ([msg_mixed; msg_multiple], Raise (KernelError "ValueError")).
Proof. split; reflexivity. Qed.

(** C7, as the code has it.  When the loop has processed all the shapes and
    left the accumulator [st], the warning about mixed shapes is issued
    exactly when [full st > 0] and [line st] holds, the warning about several
    complete shapes exactly when [full st > 1], and none is issued twice;
    [full st] counts the FULL primitives of the input, [line st] tells
    whether an OPEN one occurred, and the sketch holds the calls of the
    shapes.  The warnings are not raised: after them the sketch is returned
    as it is when no OPEN primitive occurred, and otherwise the answer is
    that of [assemble] on the sketch, which returns the sketch with that call
    made or raises the exception of the kernel.  The call raises nothing
    else. *)
Theorem convert_shape_warnings (k : cq.Kernel) (iu2mm : Z -> float) (self : Board)
    (shapes : list PCB_SHAPE) (st : AssemblyState)
    (Hloop : convert_loop k iu2mm self convert_init shapes = Return st) :
  (msg_mixed ∈ (convert_shape k iu2mm self shapes).1 <-> (0 < full st)%nat /\ line st = true)
  /\ (msg_multiple ∈ (convert_shape k iu2mm self shapes).1 <-> (1 < full st)%nat)
  /\ NoDup (convert_shape k iu2mm self shapes).1
  /\ full st = full_count shapes
  /\ line st = has_open shapes
  /\ sketch st = emitted iu2mm self shapes
  /\ (convert_shape k iu2mm self shapes).2 =
       (if line st then cq.assemble k (sketch st) else Return (sketch st))
  /\ (forall sk, (convert_shape k iu2mm self shapes).2 = Return sk <->
                 (sk = if line st then sketch st ++ [cq.Assemble] else sketch st)
                 /\ (line st = true -> k (sketch st) cq.Assemble = None))
  /\ (forall e, (convert_shape k iu2mm self shapes).2 = Raise e <->
                line st = true
                /\ exists name, k (sketch st) cq.Assemble = Some name
                                /\ e = KernelError name).
Proof.
  rewrite (convert_shape_Return _ _ _ _ _ Hloop). cbn [fst snd].
  pose proof (convert_loop_counts _ _ _ _ _ Hloop) as Hst.
  split; [apply convert_warnings_mixed|].
  split; [apply convert_warnings_multiple|].
  split; [apply convert_warnings_NoDup|].
  split; [now rewrite Hst|]. split; [now rewrite Hst|]. split; [now rewrite Hst|].
  split; [reflexivity|].
  unfold cq.assemble, cq.invoke.
  destruct (line st); [destruct (k (sketch st) cq.Assemble) as [name|] eqn:Ek|].
  - split.
    + intros sk. split; [discriminate | intros [_ H]; now specialize (H eq_refl)].
    + intros e. split.
      * intros [= <-]. eauto.
      * intros (_ & name' & [= <-] & ->). reflexivity.
  - split.
    + intros sk. split; [now intros [= <-] | now intros [-> _]].
    + intros e. split; [discriminate | now intros (_ & name & H & _)].
  - split.
    + intros sk. split; [intros [= <-]; split; [reflexivity | discriminate] | now intros [-> _]].
    + intros e. split; [discriminate | now intros [H _]].
Qed.

Lemma convert_shape_warnings_witness :
  convert_shape cq.accepting Iu2Millimeter sample_board
    [sample_segment; sample_rect; sample_bezier]
  = ([msg_mixed],
     Return (emitted Iu2Millimeter sample_board [sample_segment; sample_rect; sample_bezier]
             ++ [cq.Assemble]))
  /\ msg_multiple ∈ (convert_shape cq.accepting Iu2Millimeter sample_board
                       [sample_circle; sample_rect]).1
  /\ (convert_shape cq.accepting Iu2Millimeter sample_board [sample_circle; sample_rect]).2
     = Return (emitted Iu2Millimeter sample_board [sample_circle; sample_rect]).
Proof.
  pose proof (convert_shape_warnings cq.accepting Iu2Millimeter sample_board
                [sample_segment; sample_rect; sample_bezier]
                (final_state Iu2Millimeter sample_board
                   [sample_segment; sample_rect; sample_bezier]) eq_refl) as H1.
  pose proof (convert_shape_warnings cq.accepting Iu2Millimeter sample_board
                [sample_circle; sample_rect]
                (final_state Iu2Millimeter sample_board [sample_circle; sample_rect])
                eq_refl) as H2.
  split; [|split].
  - destruct H1 as (_ & _ & _ & _ & _ & _ & H & _).
    rewrite (surjective_pairing (convert_shape _ _ _ _)), H. reflexivity.
  - destruct H2 as (_ & H & _). apply H. vm_compute. lia.
  - destruct H2 as (_ & _ & _ & _ & _ & _ & H & _). rewrite H. reflexivity.
Defined.

(** ** A single circle *)



(** ** Polygons without vertices *)

(** C10.  The polygon branch needs a first vertex: the step on a polygon
    raises the index error exactly when the polygon has no vertex, whatever
    the kernel.  So a polygon without vertices, reached by the loop after
    shapes it ran through, makes [convert_shape] fail with the index error,
    which is not the error of an unsupported kind, although the polygon and
    the shapes before it are of supported kinds. *)
Theorem polygon_needs_vertex (k : cq.Kernel) (iu2mm : Z -> float) (self : Board)
    (shape : PCB_SHAPE) (Hpoly : GetShape shape = SHAPE_T_POLY) :
  supported shape
  /\ (forall st, convert_step k iu2mm self st shape = Raise IndexError
                 <-> GetPolyShape shape = [])
  /\ (GetPolyShape shape = [] ->
      forall pre post st,
        convert_loop k iu2mm self convert_init pre = Return st ->
        Forall supported (pre ++ [shape])
        /\ convert_shape k iu2mm self (pre ++ shape :: post) = ([], Raise IndexError)
        /\ forall s, (convert_shape k iu2mm self (pre ++ shape :: post)).2
                     <> Raise (NotImplementedError s)).
Proof.
  assert (Hfail : GetPolyShape shape = [] -> failure shape = Some IndexError).
  { intros Hempty. unfold failure. now rewrite Hpoly, Hempty. }
  assert (Hsup : supported shape).
  { unfold supported. rewrite Hpoly. eexists; reflexivity. }
  split; [exact Hsup|]. split.
  - intros st. rewrite convert_step_spec. unfold failure. rewrite Hpoly.
    destruct (GetPolyShape shape); split; intros H; try easy.
    destruct (cq.run k (sketch st) _) as [sk|e] eqn:Er; [discriminate H|].
    simpl in H. injection H as ->. apply run_Raise in Er as [name Hn]. discriminate Hn.
  - intros Hempty pre post st Hpre.
    assert (E : convert_shape k iu2mm self (pre ++ shape :: post) = ([], Raise IndexError)).
    { apply convert_shape_Raise.
      apply (convert_loop_stops _ _ _ _ _ _ _ _ _ Hpre). now apply Hfail. }
    split; [|split; [exact E|]].
    + apply Forall_app. split; [|now repeat constructor].
      apply first_failure_None_supported. now apply convert_loop_Return in Hpre.
    + intros s. rewrite E. discriminate.
Qed.

Lemma polygon_needs_vertex_witness :
  Forall supported ([sample_segment; sample_triangle] ++ [empty_polygon])
  /\ convert_shape cq.accepting Iu2Millimeter sample_board
       ([sample_segment; sample_triangle] ++ empty_polygon :: [sample_circle])
     = ([], Raise IndexError).
Proof.
  destruct (polygon_needs_vertex cq.accepting Iu2Millimeter sample_board empty_polygon
              eq_refl) as (_ & _ & H).
  destruct (H eq_refl [sample_segment; sample_triangle] [sample_circle]
              (final_state Iu2Millimeter sample_board [sample_segment; sample_triangle])
              eq_refl) as (Hs & E & _).
  split; [exact Hs | exact E].
Defined.

(** * Properties of the accessors *)

(** ** Strings *)

Lemma contains_spec (s t : str) :
  contains s t = true <-> exists pre post, s = pre ++ t ++ post.
Proof.
  induction s as [|c rest IH]; simpl; unfold startswith.
  - rewrite orb_false_r, bool_decide_eq_true. split.
    + intros [k Hk]. exists [], k. exact Hk.
    + intros (pre & post & H). destruct pre; simpl in H.
      * now exists post.
      * discriminate H.
  - rewrite orb_true_iff, bool_decide_eq_true, IH. split.
    + intros [[k Hk]|(pre & post & ->)].
      * exists [], k. exact Hk.
      * now exists (c :: pre), post.
    + intros (pre & post & H). destruct pre as [|c' pre]; simpl in H.
      * left. now exists post.
      * right. injection H as -> ->. now exists pre, post.
Qed.

Lemma replace_from_skip (old new : str) (s : str) :
  forall k, replace_from old new k s = replace_from old new 0 (drop k s).
Proof.
  induction s as [|c rest IH]; intros [|k]; simpl; try reflexivity.
  rewrite IH. now destruct (drop k rest).
Qed.

Lemma contains_nil_l (t : str) : t <> [] -> contains [] t = false.
Proof.
  intros Ht. simpl. rewrite orb_false_r. apply bool_decide_eq_false.
  intros [k Hk]. destruct t; [contradiction | discriminate Hk].
Qed.

Lemma startswith_contains (s t : str) : startswith s t = true -> contains s t = true.
Proof. intros H. destruct s; simpl; now rewrite H. Qed.

Lemma contains_cons_false (c : ascii) (rest t : str) :
  contains (c :: rest) t = false ->
  startswith (c :: rest) t = false /\ contains rest t = false.
Proof. simpl. apply orb_false_elim. Qed.

Lemma contains_drop (s t : str) (k : nat) :
  contains s t = false -> contains (drop k s) t = false.
Proof.
  intros H. destruct (contains (drop k s) t) eqn:E; [|reflexivity].
  apply contains_spec in E as (pre & post & E).
  assert (contains s t = true); [|congruence].
  apply contains_spec. exists (take k s ++ pre), post.
  now rewrite <- app_assoc, <- E, take_drop.
Qed.

Lemma contains_take (s t : str) (k : nat) :
  contains s t = false -> contains (take k s) t = false.
Proof.
  intros H. destruct (contains (take k s) t) eqn:E; [|reflexivity].
  apply contains_spec in E as (pre & post & E).
  assert (contains s t = true); [|congruence].
  apply contains_spec. exists pre, (post ++ drop k s).
  rewrite <- (take_drop k s) at 1. rewrite E. now rewrite <- !app_assoc.
Qed.

(** A pattern whose first character is not in [w] cannot begin inside [w]. *)
Lemma contains_app_l (w r t : str) :
  (forall a, head t = Some a -> a ∉ w) -> t <> [] ->
  contains (w ++ r) t = contains r t.
Proof.
  intros Hd Ht. destruct t as [|a t]; [contradiction|].
  specialize (Hd a eq_refl).
  induction w as [|n w IH]; [reflexivity|].
  change ((n :: w) ++ r) with (n :: (w ++ r)).
  cbn [contains]. rewrite IH.
  - replace (startswith (n :: w ++ r) (a :: t)) with false; [reflexivity|].
    symmetry. apply bool_decide_eq_false. intros [k Hk].
    injection Hk as -> _. apply Hd. left.
  - intros Hin. apply Hd. now right.
Qed.

(** A pattern none of whose characters is in [w] cannot end inside [w]. *)
Lemma contains_app_r (s w t : str) :
  t <> [] -> Forall (fun a => a ∉ w) t -> contains (s ++ w) t = contains s t.
Proof.
  intros Ht Hd.
  destruct (contains s t) eqn:E.
  - apply contains_spec in E as (pre & post & ->). apply contains_spec.
    exists pre, (post ++ w). now rewrite <- !app_assoc.
  - destruct (contains (s ++ w) t) eqn:E'; [|reflexivity].
    apply contains_spec in E' as (pre & post & E').
    assert (contains s t = true); [|congruence]. apply contains_spec.
    apply app_eq_app in E' as [l [[H1 H2]|[H1 H2]]].
    + apply app_eq_app in H2 as [l' [[H3 H4]|[H3 H4]]].
      * destruct l' as [|b l'].
        -- rewrite app_nil_r in H3. subst l. exists pre, []. now rewrite app_nil_r.
        -- exfalso. rewrite Forall_forall in Hd. apply (Hd b).
           ++ rewrite H3. apply elem_of_app. right. left.
           ++ rewrite H4. left.
      * subst l. now exists pre, l'.
    + exfalso. destruct t as [|a t]; [contradiction|].
      apply Forall_cons in Hd as [Ha _]. apply Ha.
      rewrite H2. apply elem_of_app. right. left.
Qed.

Section Replace.

Variables old new : str.
Hypothesis old_nonempty : old <> [].

Lemma replace_nil : replace [] old new = [].
Proof using old_nonempty. unfold replace. now destruct old. Qed.

Lemma replace_hit (s : str) :
  startswith s old = true ->
  replace s old new = new ++ replace (drop (length old) s) old new.
Proof using old_nonempty.
  unfold replace. destruct old as [|a old'] eqn:E; [contradiction|]. rewrite <- E.
  destruct s as [|c rest]; simpl.
  - unfold startswith. rewrite bool_decide_eq_true. intros [k Hk]. subst. discriminate Hk.
  - intros ->. rewrite replace_from_skip. subst old. simpl. now rewrite Nat.sub_0_r.
Qed.

Lemma replace_miss (c : ascii) (rest : str) :
  startswith (c :: rest) old = false ->
  replace (c :: rest) old new = c :: replace rest old new.
Proof using old_nonempty.
  unfold replace. destruct old as [|a old'] eqn:E; [contradiction|]. rewrite <- E.
  simpl. now intros ->.
Qed.

(** Induction along the scan of [replace]. *)
Lemma replace_ind (P : str -> str -> Prop) :
  P [] [] ->
  (forall s, startswith s old = true ->
     P (drop (length old) s) (replace (drop (length old) s) old new) ->
     P s (new ++ replace (drop (length old) s) old new)) ->
  (forall c rest, startswith (c :: rest) old = false ->
     P rest (replace rest old new) -> P (c :: rest) (c :: replace rest old new)) ->
  forall s, P s (replace s old new).
Proof using old_nonempty.
  intros Hnil Hhit Hmiss s.
  remember (length s) as n eqn:Hn. revert s Hn.
  induction n as [n IH] using lt_wf_ind. intros s Hn.
  destruct s as [|c rest].
  - now rewrite replace_nil.
  - destruct (startswith (c :: rest) old) eqn:E.
    + rewrite (replace_hit _ E). apply Hhit; [exact E|].
      apply (IH (length (drop (length old) (c :: rest)))); [|reflexivity].
      subst n. rewrite length_drop. destruct old; [contradiction|]. simpl. lia.
    + rewrite (replace_miss _ _ E). apply Hmiss; [exact E|].
      apply (IH (length rest)); [subst n; simpl; lia | reflexivity].
Qed.

(** Without an occurrence there is nothing to replace. *)
Lemma replace_absent (s : str) : contains s old = false -> replace s old new = s.
Proof using old_nonempty.
  apply (replace_ind (fun s r => contains s old = false -> r = s)).
  - reflexivity.
  - intros s' Hs _ Hc. apply startswith_contains in Hs. congruence.
  - intros c rest _ IH Hc. apply contains_cons_false in Hc as [_ Hc]. now rewrite IH.
Qed.

Hypothesis new_nonempty : new <> [].

(** What the result begins with, the input began with: as long as it lacks
    the first character of [new]. *)
Lemma replace_prefix (s u : str) :
  (forall n, head new = Some n -> n ∉ u) ->
  u `prefix_of` replace s old new -> u `prefix_of` s.
Proof using old_nonempty new_nonempty.
  intros Hn.
  assert (exists n new', new = n :: new') as (n & new' & Enew)
    by (destruct new as [|n new']; [contradiction | now exists n, new']).
  specialize (Hn n). rewrite Enew in Hn. specialize (Hn eq_refl). revert u Hn.
  apply (replace_ind (fun s r => forall u, n ∉ u -> u `prefix_of` r -> u `prefix_of` s)).
  - auto.
  - intros s' _ _ [|a u] Hd Hp; [apply prefix_nil|]. exfalso.
    rewrite Enew in Hp. destruct Hp as [k Hk]. injection Hk as -> _.
    apply Hd. left.
  - intros c rest _ IH [|a u] Hd Hp; [apply prefix_nil|].
    destruct Hp as [k Hk]. injection Hk as -> Hk.
    apply prefix_cons, IH; [|now exists k].
    intros Hin. apply Hd. now right.
Qed.

(** No occurrence of [t] is created, when [t] does not begin with a
    character of [new] and lacks the first character of [new]. *)
Lemma replace_creates_none (s t : str) :
  (forall a, head t = Some a -> a ∉ new) ->
  (forall n, head new = Some n -> n ∉ t) ->
  t <> [] ->
  contains s t = false -> contains (replace s old new) t = false.
Proof using old_nonempty new_nonempty.
  intros Hd Hn Ht.
  apply (replace_ind (fun s r => contains s t = false -> contains r t = false)).
  - auto.
  - intros s' _ IH Hc. rewrite (contains_app_l _ _ _ Hd Ht). apply IH.
    now apply contains_drop.
  - intros c rest Hmiss IH Hc.
    pose proof Hc as Hc'. apply contains_cons_false in Hc' as [Hs Hrest].
    cbn [contains]. rewrite (IH Hrest), orb_false_r.
    apply bool_decide_eq_false. intros Hp.
    rewrite <- (replace_miss _ _ Hmiss) in Hp.
    apply (replace_prefix _ _ Hn) in Hp.
    apply bool_decide_eq_false in Hs. contradiction.
Qed.

(** Every occurrence of [old] is gone, under the same two conditions on
    [old]. *)
Lemma replace_removes_all (s : str) :
  (forall a, head old = Some a -> a ∉ new) ->
  (forall n, head new = Some n -> n ∉ old) ->
  contains (replace s old new) old = false.
Proof using old_nonempty new_nonempty.
  intros Hd Hn.
  apply (replace_ind (fun s r => contains r old = false)).
  - now apply contains_nil_l.
  - intros s' _ IH. now rewrite (contains_app_l _ _ _ Hd old_nonempty).
  - intros c rest Hmiss IH.
    cbn [contains]. rewrite IH, orb_false_r.
    apply bool_decide_eq_false. intros Hp.
    rewrite <- (replace_miss _ _ Hmiss) in Hp.
    apply (replace_prefix _ _ Hn) in Hp.
    apply bool_decide_eq_false in Hmiss. contradiction.
Qed.

End Replace.

(** ** Model paths *)

Ltac by_computation := apply (bool_decide_unpack _); vm_compute; exact I.
Ltac head_outside := intros ? [= <-]; by_computation.

Lemma trans_model_path_unfold (p : str) :
  trans_model_path p =
    swap_extension
      (replace (replace p (placeholder (lit "KIPRJMOD")) (lit "."))
               (placeholder (lit "KICAD6_3DMODEL_DIR")) (lit "/usr/share/kicad/3dmodels")).
Proof. reflexivity. Qed.

Lemma placeholder_nonempty (k : str) : placeholder k <> [].
Proof. discriminate. Qed.

Lemma envars_cases (kv : str * str) :
  kv ∈ envars ->
  kv = (lit "KIPRJMOD", lit ".")
  \/ kv = (lit "KICAD6_3DMODEL_DIR", lit "/usr/share/kicad/3dmodels").
Proof.
  unfold envars. rewrite !elem_of_cons, elem_of_nil. tauto.
Qed.

Lemma swap_extension_absent (q t : str) :
  t <> [] -> Forall (fun a => a ∉ lit ".step") t ->
  contains q t = false -> contains (swap_extension q) t = false.
Proof.
  intros Ht Hd Hc. unfold swap_extension.
  destruct (endswith q (lit ".wrl")); [|exact Hc].
  rewrite (contains_app_r _ _ _ Ht Hd). now apply contains_take.
Qed.

Lemma swap_extension_not_wrl (q : str) :
  endswith (swap_extension q) (lit ".wrl") = false.
Proof.
  unfold swap_extension. destruct (endswith q (lit ".wrl")) eqn:E; [|exact E].
  apply bool_decide_eq_false. intros [k Hk].
  apply (f_equal reverse) in Hk. rewrite !reverse_app in Hk.
  vm_compute in Hk. discriminate Hk.
Qed.

Lemma dollar_free_absent (s k : str) :
  "$"%char ∉ s -> contains s (placeholder k) = false.
Proof.
  intros Hs. destruct (contains s (placeholder k)) eqn:E; [|reflexivity].
  apply contains_spec in E as (pre & post & ->). exfalso. apply Hs.
  apply elem_of_app. right. left.
Qed.

Lemma replace_skip_prefix (pre s old new : str) (a : ascii) :
  head old = Some a -> a ∉ pre ->
  replace (pre ++ s) old new = pre ++ replace s old new.
Proof.
  intros Hold Ha. assert (Hne : old <> []) by (intros ->; discriminate Hold).
  induction pre as [|c pre IH]; [reflexivity|].
  change ((c :: pre) ++ s) with (c :: (pre ++ s)).
  rewrite (replace_miss _ _ Hne).
  - rewrite IH; [reflexivity|]. intros Hin. apply Ha. now right.
  - apply bool_decide_eq_false. intros [k Hk].
    destruct old as [|a' old']; [contradiction|]. injection Hold as ->.
    injection Hk as -> _. apply Ha. left.
Qed.

Lemma replace_at_head (s old new : str) :
  old <> [] -> replace (old ++ s) old new = new ++ replace s old new.
Proof.
  intros Hne. rewrite (replace_hit _ _ Hne).
  - now rewrite drop_app_length.
  - apply bool_decide_eq_true. now exists s.
Qed.

Lemma no_placeholder_left (p : str) (kv : str * str) :
  kv ∈ envars -> contains (trans_model_path p) (placeholder kv.1) = false.
Proof.
  intros Hkv. rewrite trans_model_path_unfold.
  apply envars_cases in Hkv as [->| ->]; cbn [fst];
    (apply swap_extension_absent; [apply placeholder_nonempty | by_computation |]).
  - apply replace_creates_none;
      [apply placeholder_nonempty | discriminate | head_outside | head_outside
      | apply placeholder_nonempty |].
    apply replace_removes_all;
      [apply placeholder_nonempty | discriminate | head_outside | head_outside].
  - apply replace_removes_all;
      [apply placeholder_nonempty | discriminate | head_outside | head_outside].
Qed.

Lemma never_wrl (p : str) : endswith (trans_model_path p) (lit ".wrl") = false.
Proof. rewrite trans_model_path_unfold. apply swap_extension_not_wrl. Qed.

Lemma unchanged_when (p : str) :
  (forall kv, kv ∈ envars -> contains p (placeholder kv.1) = false) ->
  endswith p (lit ".wrl") = false ->
  trans_model_path p = p.
Proof.
  intros Hph Hext. rewrite trans_model_path_unfold.
  rewrite (replace_absent _ _ (placeholder_nonempty _) p).
  - rewrite (replace_absent _ _ (placeholder_nonempty _) p).
    + unfold swap_extension. now rewrite Hext.
    + apply (Hph (lit "KICAD6_3DMODEL_DIR", lit "/usr/share/kicad/3dmodels")).
      unfold envars. right. left.
  - apply (Hph (lit "KIPRJMOD", lit ".")). left.
Qed.

Lemma translated_twice (p : str) :
  trans_model_path (trans_model_path p) = trans_model_path p.
Proof.
  apply unchanged_when.
  - intros kv. apply no_placeholder_left.
  - apply never_wrl.
Qed.

Lemma trans_model_path_dollar_free (q : str) :
  "$"%char ∉ q -> trans_model_path q = swap_extension q.
Proof.
  intros Hq. rewrite trans_model_path_unfold.
  rewrite (replace_absent _ _ (placeholder_nonempty _) q) by now apply dollar_free_absent.
  rewrite (replace_absent _ _ (placeholder_nonempty _) q) by now apply dollar_free_absent.
  reflexivity.
Qed.

(** X1.  The translated path holds no placeholder of [envars] any more, and
    it does not end in [.wrl]. *)
Theorem trans_model_path_expands_all (p : str) (kv : str * str) :
  kv ∈ envars ->
  contains (trans_model_path p) (placeholder kv.1) = false
  /\ endswith (trans_model_path p) (lit ".wrl") = false.
Proof.
  intros Hkv. rewrite trans_model_path_unfold. split.
  - apply envars_cases in Hkv as [->| ->]; cbn [fst];
      (apply swap_extension_absent; [apply placeholder_nonempty | by_computation |]).
    + apply replace_creates_none;
        [apply placeholder_nonempty | discriminate | head_outside | head_outside
        | apply placeholder_nonempty |].
      apply replace_removes_all;
        [apply placeholder_nonempty | discriminate | head_outside | head_outside].
    + apply replace_removes_all;
        [apply placeholder_nonempty | discriminate | head_outside | head_outside].
  - apply swap_extension_not_wrl.
Qed.

Lemma trans_model_path_expands_all_witness :
  contains (trans_model_path (lit "${KIPRJMOD}/a${KICAD6_3DMODEL_DIR}/b.wrl"))
           (placeholder (lit "KICAD6_3DMODEL_DIR")) = false
  /\ endswith (trans_model_path (lit "${KIPRJMOD}/a${KICAD6_3DMODEL_DIR}/b.wrl"))
              (lit ".wrl") = false.
Proof.
  apply (trans_model_path_expands_all _
           (lit "KICAD6_3DMODEL_DIR", lit "/usr/share/kicad/3dmodels")).
  right. left.
Defined.

(** X2.  The paths that [trans_model_path] returns unchanged are exactly
    those that hold no placeholder of [envars] and do not end in [.wrl]. *)
Theorem trans_model_path_fixed (p : str) :
  trans_model_path p = p <->
  (forall kv, kv ∈ envars -> contains p (placeholder kv.1) = false)
  /\ endswith p (lit ".wrl") = false.
Proof.
  split.
  - intros H. split.
    + intros kv Hkv. rewrite <- H. now apply no_placeholder_left.
    + rewrite <- H. apply never_wrl.
  - intros [Hph Hext]. now apply unchanged_when.
Qed.

(** X3.  Translating a translated path changes nothing. *)
Theorem trans_model_path_idempotent (p : str) :
  trans_model_path (trans_model_path p) = trans_model_path p.
Proof.
  apply unchanged_when.
  - intros kv Hkv. now apply no_placeholder_left.
  - apply never_wrl.
Qed.

(** X4.  A placeholder of [envars] between two parts without a dollar sign
    stands for its value: the path translates like the path with the value
    written out, and to that very path unless it ends in [.wrl]. *)
Theorem trans_model_path_value (pre post : str) (kv : str * str) :
  kv ∈ envars -> "$"%char ∉ pre -> "$"%char ∉ post ->
  trans_model_path (pre ++ placeholder kv.1 ++ post) = trans_model_path (pre ++ kv.2 ++ post)
  /\ (endswith (pre ++ kv.2 ++ post) (lit ".wrl") = false ->
      trans_model_path (pre ++ placeholder kv.1 ++ post) = pre ++ kv.2 ++ post)
  /\ (forall stem, pre ++ kv.2 ++ post = stem ++ lit ".wrl" ->
      trans_model_path (pre ++ placeholder kv.1 ++ post) = stem ++ lit ".step").
Proof.
  intros Hkv Hpre Hpost.
  assert (Hfree : "$"%char ∉ pre ++ kv.2 ++ post).
  { rewrite !elem_of_app. intros [H|[H|H]]; [now apply Hpre | | now apply Hpost].
    apply envars_cases in Hkv as [->| ->]; revert H; by_computation. }
  assert (E : trans_model_path (pre ++ placeholder kv.1 ++ post)
              = swap_extension (pre ++ kv.2 ++ post)).
  { rewrite trans_model_path_unfold.
    apply envars_cases in Hkv as [->| ->]; cbn [fst snd] in *.
    - rewrite (replace_skip_prefix pre _ (placeholder _) _ "$"%char eq_refl Hpre).
      rewrite (replace_at_head _ _ _ (placeholder_nonempty _)).
      rewrite (replace_absent _ _ (placeholder_nonempty _) post)
        by now apply dollar_free_absent.
      rewrite (replace_absent _ _ (placeholder_nonempty _))
        by now apply dollar_free_absent.
      reflexivity.
    - rewrite (replace_skip_prefix pre _ (placeholder _) _ "$"%char eq_refl Hpre).
      rewrite (replace_absent _ _ (placeholder_nonempty _)
                 (placeholder (lit "KICAD6_3DMODEL_DIR") ++ post)).
      + rewrite (replace_skip_prefix pre _ (placeholder _) _ "$"%char eq_refl Hpre).
        rewrite (replace_at_head _ _ _ (placeholder_nonempty _)).
        rewrite (replace_absent _ _ (placeholder_nonempty _) post)
          by now apply dollar_free_absent.
        reflexivity.
      + change (placeholder (lit "KICAD6_3DMODEL_DIR") ++ post)
          with ("$"%char :: (lit "{KICAD6_3DMODEL_DIR}" ++ post)).
        cbn [contains]. apply orb_false_intro.
        * apply bool_decide_eq_false. intros [k Hk]. discriminate Hk.
        * apply dollar_free_absent. rewrite elem_of_app. intros [H|H]; [|now apply Hpost].
          revert H. by_computation. }
  split; [|split].
  - now rewrite E, (trans_model_path_dollar_free _ Hfree).
  - intros Hext. rewrite E. unfold swap_extension. now rewrite Hext.
  - intros stem Hstem. rewrite E, Hstem. unfold swap_extension.
    replace (endswith (stem ++ lit ".wrl") (lit ".wrl")) with true
      by (symmetry; apply bool_decide_eq_true; now exists stem).
    rewrite length_app. change (length (lit ".wrl")) with 4%nat.
    now rewrite Nat.add_sub, take_app_length.
Qed.

Lemma trans_model_path_value_witness :
  trans_model_path (lit "${KICAD6_3DMODEL_DIR}/Package_QFP.3dshapes/LQFP-48.wrl")
  = lit "/usr/share/kicad/3dmodels/Package_QFP.3dshapes/LQFP-48.step".
Proof.
  apply (proj2 (proj2 (trans_model_path_value [] (lit "/Package_QFP.3dshapes/LQFP-48.wrl")
           (lit "KICAD6_3DMODEL_DIR", lit "/usr/share/kicad/3dmodels")
           ltac:(right; left) ltac:(by_computation) ltac:(by_computation)))
         (lit "/usr/share/kicad/3dmodels/Package_QFP.3dshapes/LQFP-48")).
  reflexivity.
Defined.

(** ** Heights *)

Lemma float_zero_one : 0%float <> 1%float.
Proof.
  intros H. apply (f_equal (fun f => PrimFloat.eqb f 0)) in H.
  vm_compute in H. discriminate H.
Qed.

Lemma max2_cases (a b : float) : max2 a b = a \/ max2 a b = b.
Proof. unfold max2. destruct (a <? b)%float; auto. Qed.

Lemma foldl_max2_elem (rest : list float) :
  forall a, foldl max2 a rest ∈ a :: rest.
Proof.
  induction rest as [|b rest IH]; intros a; simpl.
  - left.
  - specialize (IH (max2 a b)). apply elem_of_cons in IH as [IH|IH].
    + rewrite IH. destruct (max2_cases a b) as [->| ->]; [left | right; left].
    + right. now right.
Qed.

Lemma py_max_elem (l : list float) (m : float) : py_max l = Some m -> m ∈ l.
Proof.
  destruct l as [|a rest]; simpl; [discriminate|].
  intros [= <-]. apply foldl_max2_elem.
Qed.

Lemma py_max_None (l : list float) : py_max l = None <-> l = [].
Proof. destruct l; simpl; split; intros H; try easy. Qed.

Section Heights.

Variable importStep_top : str -> option float.
Variable self : BoardObject.

Lemma top_None (m : FP_3DMODEL) :
  model_top importStep_top m = None <-> importStep_top (trans_model_path (m_Filename m)) = None.
Proof.
  unfold model_top. destruct (importStep_top (trans_model_path (m_Filename m))); simpl;
    split; intros H; try easy.
Qed.

Lemma height_try_None (comp : Component) :
  height_try importStep_top self comp = None <-> unmeasurable importStep_top self comp.
Proof.
  unfold height_try, unmeasurable.
  destruct (fp self comp) as [f|]; simpl; [|split; [now left | reflexivity]].
  destruct (mapM (model_top importStep_top) (Models f)) as [tops|] eqn:E; simpl.
  - assert (Hall : Forall (is_Some ∘ model_top importStep_top) (Models f))
      by (apply mapM_is_Some; rewrite E; now eexists).
    apply mapM_Some in E. destruct tops as [|t tops]; simpl.
    + apply Forall2_nil_inv_r in E. split; [|reflexivity].
      intros _. right. exists f. split; [reflexivity | now left].
    + split; [discriminate|].
      intros [H|(f' & [= <-] & [H|(m & Hm & Hnone)])]; [discriminate H | |].
      * rewrite H in E. inversion E.
      * exfalso. rewrite Forall_forall in Hall. destruct (Hall m Hm) as [z Hz].
        apply top_None in Hnone. congruence.
  - split; [|reflexivity]. intros _. right. exists f. split; [reflexivity|]. right.
    assert (Hnot : ~ Forall (is_Some ∘ model_top importStep_top) (Models f)).
    { intros Hall. apply mapM_is_Some in Hall. rewrite E in Hall.
      destruct Hall as [z Hz]. discriminate Hz. }
    apply not_Forall_Exists in Hnot; [|intros m; apply _].
    apply Exists_exists in Hnot as (m & Hm & Hnone).
    exists m. split; [exact Hm|]. apply top_None.
    now apply eq_None_not_Some.
Qed.

Lemma height_measured (comp : Component) (h : float) :
  height_try importStep_top self comp = Some h ->
  forall def_h, height importStep_top self comp def_h = h.
Proof. intros H def_h. unfold height. now rewrite H. Qed.

Lemma height_unmeasurable (comp : Component) :
  unmeasurable importStep_top self comp ->
  forall def_h, height importStep_top self comp def_h = def_h.
Proof. intros H def_h. apply height_try_None in H. unfold height. now rewrite H. Qed.

Lemma model_top_translated (m : FP_3DMODEL) :
  model_top importStep_top (mk_FP_3DMODEL (trans_model_path (m_Filename m)) (m_Offset_z m))
  = model_top importStep_top m.
Proof. unfold model_top. cbn [m_Filename m_Offset_z]. now rewrite translated_twice. Qed.

Lemma mapM_top_translated (models : list FP_3DMODEL) :
  mapM (model_top importStep_top)
       (map (fun m => mk_FP_3DMODEL (trans_model_path (m_Filename m)) (m_Offset_z m)) models)
  = mapM (model_top importStep_top) models.
Proof.
  induction models as [|m models IH]; [reflexivity|].
  cbn [map mapM]. now rewrite IH, model_top_translated.
Qed.

(** X5.  [height] answers its default, whatever the default, exactly for the
    components it cannot measure: those not on the board, those without a
    model, and those with a model that does not load.  For every other
    component the default plays no part. *)
Theorem height_default (comp : Component) :
  ((forall def_h, height importStep_top self comp def_h = def_h)
   <-> unmeasurable importStep_top self comp)
  /\ (~ unmeasurable importStep_top self comp ->
      forall d1 d2, height importStep_top self comp d1 = height importStep_top self comp d2).
Proof.
  split; [split|].
  - intros Hd. apply height_try_None.
    destruct (height_try importStep_top self comp) as [h|] eqn:E; [|reflexivity].
    exfalso. apply float_zero_one.
    rewrite <- (Hd 0%float), <- (Hd 1%float).
    now rewrite !(height_measured _ _ E).
  - apply height_unmeasurable.
  - intros Hm d1 d2.
    destruct (height_try importStep_top self comp) as [h|] eqn:E.
    + now rewrite !(height_measured _ _ E).
    + exfalso. apply Hm. now apply height_try_None.
Qed.

(** X6.  Translating the file names of a footprint's models beforehand does
    not change its height. *)
Theorem height_translated_names (f : FOOTPRINT) (def_h : float) :
  height importStep_top self (Fp (with_translated_models f)) def_h
  = height importStep_top self (Fp f) def_h.
Proof.
  unfold height, height_try. cbn [fp with_translated_models Models mbind option_bind].
  now rewrite mapM_top_translated.
Qed.

(** ** The highest component *)

Lemma max_height_heights (hmap : gmap string float) (def_h : float)
    (comps : list Component) :
  max_height importStep_top self hmap def_h comps =
    match py_max (map (fun comp => height importStep_top self comp (fallback hmap def_h comp))
                      comps) with
    | Some h => Ok h
    | None => Err ValueError
    end.
Proof. reflexivity. Qed.

(** X7.  [max_height] fails exactly on the empty list of components, and
    then with the [ValueError] of [max]; it has no other error. *)
Theorem max_height_empty (hmap : gmap string float) (def_h : float)
    (comps : list Component) :
  (max_height importStep_top self hmap def_h comps = Err ValueError <-> comps = [])
  /\ (forall e, max_height importStep_top self hmap def_h comps = Err e -> e = ValueError)
  /\ (comps <> [] -> exists h, max_height importStep_top self hmap def_h comps = Ok h).
Proof.
  rewrite max_height_heights.
  destruct comps as [|comp comps]; simpl.
  - split; [|split]; [easy | now intros e [= <-] | easy].
  - split; [|split]; [easy | discriminate | eauto].
Qed.

(** X8.  The height [max_height] returns is the height of one of the
    components, measured with that component's own fallback: its entry in
    [hmap] if its reference has one, and [def_h] otherwise. *)
Theorem max_height_attained (hmap : gmap string float) (def_h : float)
    (comps : list Component) (h : float) :
  max_height importStep_top self hmap def_h comps = Ok h ->
  exists comp, comp ∈ comps
    /\ h = height importStep_top self comp (fallback hmap def_h comp)
    /\ fallback hmap def_h comp = default def_h (hmap !! ref comp).
Proof.
  rewrite max_height_heights.
  destruct (py_max _) as [m|] eqn:E; [|discriminate]. intros [= <-].
  apply py_max_elem, list_elem_of_fmap in E as (comp & -> & Hin).
  exists comp. split; [exact Hin|]. split; [reflexivity|].
  unfold fallback. now destruct (hmap !! ref comp).
Qed.

(** X9.  For components that cannot be measured, [max_height] is the
    greatest fallback: a component on its own gets its entry in [hmap], and
    [def_h] when its reference has none. *)
Theorem max_height_unmeasurable (hmap : gmap string float) (def_h : float)
    (comps : list Component) :
  Forall (unmeasurable importStep_top self) comps ->
  max_height importStep_top self hmap def_h comps =
    match py_max (map (fun comp => default def_h (hmap !! ref comp)) comps) with
    | Some h => Ok h
    | None => Err ValueError
    end.
Proof.
  intros Hall. rewrite max_height_heights.
  replace (map (fun comp => height importStep_top self comp (fallback hmap def_h comp)) comps)
    with (map (fun comp => default def_h (hmap !! ref comp)) comps); [reflexivity|].
  apply map_ext_Forall. eapply Forall_impl; [exact Hall|].
  intros comp Hc. cbn beta. rewrite (height_unmeasurable _ Hc).
  unfold fallback. now destruct (hmap !! ref comp).
Qed.

End Heights.

Lemma max_height_attained_witness :
  exists comp,
    comp ∈ [Fp sample_footprint; Ref "H1"; Ref "X9"]
    /\ 3%float = height sample_store sample_object comp (fallback sample_hmap 1 comp).
Proof.
  destruct (max_height_attained sample_store sample_object sample_hmap 1
              [Fp sample_footprint; Ref "H1"; Ref "X9"] 3
              ltac:(vm_compute; reflexivity))
    as (comp & Hin & Hh & _).
  now exists comp.
Defined.

Lemma max_height_unmeasurable_witness :
  max_height sample_store sample_object sample_hmap 1 [Ref "X9"; Fp bare_footprint; Ref "X7"]
  = Ok 3%float.
Proof.
  rewrite (max_height_unmeasurable sample_store sample_object sample_hmap 1
             [Ref "X9"; Fp bare_footprint; Ref "X7"]).
  - vm_compute. reflexivity.
  - repeat apply Forall_cons_2; [| | |apply Forall_nil_2]; unfold unmeasurable.
    + left. reflexivity.
    + right. exists bare_footprint. split; [reflexivity | left; reflexivity].
    + left. reflexivity.
Defined.

(** ** Components given by reference *)

Section Components.

Variable k : cq.Kernel.
Variable iu2mm : Z -> float.
Variables F_CrtYd B_CrtYd : Z.
Variable importStep_top : str -> option float.
Variable self : BoardObject.




(** X11.  A component on the board may be given by its reference or by its
    footprint object: every accessor answers the same, and so does
    [max_height] when the footprint carries the reference it was found by. *)
Theorem component_by_reference (r : string) (f : FOOTPRINT) :
  FindFootprintByReference (board self) r = Some f ->
  pos iu2mm self (Ref r) = pos iu2mm self (Fp f)
  /\ (forall l, layer_raw_of self (Ref r) l = layer_raw_of self (Fp f) l)
  /\ (forall l, layer_of k iu2mm self (Ref r) l = layer_of k iu2mm self (Fp f) l)
  /\ (forall front, courtyard k iu2mm F_CrtYd B_CrtYd self (Ref r) front
                    = courtyard k iu2mm F_CrtYd B_CrtYd self (Fp f) front)
  /\ (forall def_h, height importStep_top self (Ref r) def_h
                    = height importStep_top self (Fp f) def_h)
  /\ (GetReference f = r ->
      forall hmap def_h pre post,
        max_height importStep_top self hmap def_h (pre ++ Ref r :: post)
        = max_height importStep_top self hmap def_h (pre ++ Fp f :: post)).
Proof.
  intros Hfind.
  assert (Hfp : fp self (Ref r) = fp self (Fp f)) by exact Hfind.
  assert (Hh : forall def_h, height importStep_top self (Ref r) def_h
                             = height importStep_top self (Fp f) def_h).
  { intros def_h. unfold height, height_try. now rewrite Hfp. }
  unfold courtyard, courtyard_raw, layer_of, layer_raw_of, pos.
  rewrite Hfp. repeat split; try exact Hh.
  intros Href hmap def_h pre post. rewrite !max_height_heights, !map_app.
  cbn [map]. rewrite Hh. unfold fallback. cbn [ref]. now rewrite Href.
Qed.

Lemma List_filter_sublist {A : Type} (f : A -> bool) (l : list A) :
  List.filter f l `sublist_of` l.
Proof.
  induction l as [|a l IH]; simpl; [constructor|].
  destruct (f a); [now apply sublist_skip | now apply sublist_cons].
Qed.

(** X12.  [fps_with_val] returns the footprints of the board whose value is
    the given one, and no other, in the order of the board; so does
    [fps_where] for its predicate. *)
Theorem fps_with_val_selects (v : string) (f : FOOTPRINT) :
  (f ∈ fps_with_val self v <-> f ∈ fps self /\ GetValue f = v)
  /\ fps_with_val self v `sublist_of` fps self
  /\ (forall keep, (f ∈ fps_where self keep <-> f ∈ fps self /\ keep f = true)
                   /\ fps_where self keep `sublist_of` fps self).
Proof.
  assert (H : forall keep, (f ∈ fps_where self keep <-> f ∈ fps self /\ keep f = true)
                           /\ fps_where self keep `sublist_of` fps self).
  { intros keep. unfold fps_where. split; [|apply List_filter_sublist].
    rewrite !list_elem_of_In. apply filter_In. }
  split; [|split; [|exact H]].
  - unfold fps_with_val. rewrite (proj1 (H _)). now rewrite String.eqb_eq.
  - apply H.
Qed.

(** X13.  A graphic item of a footprint on another layer plays no part in
    [layer_of]; so the items of the back courtyard play none in the front
    courtyard, and conversely, the two layers being different. *)
Theorem courtyard_ignores_other_side (f : FOOTPRINT) (pre post : list Drawing)
    (g : Drawing) :
  (forall l, GetLayer g <> l ->
     layer_of k iu2mm self (Fp (with_items f (pre ++ g :: post))) l
     = layer_of k iu2mm self (Fp (with_items f (pre ++ post))) l)
  /\ (F_CrtYd <> B_CrtYd ->
      forall front : bool, GetLayer g = (if front then B_CrtYd else F_CrtYd) ->
        courtyard k iu2mm F_CrtYd B_CrtYd self (Fp (with_items f (pre ++ g :: post))) front
        = courtyard k iu2mm F_CrtYd B_CrtYd self (Fp (with_items f (pre ++ post))) front).
Proof.
  assert (H : forall l, GetLayer g <> l ->
     layer_of k iu2mm self (Fp (with_items f (pre ++ g :: post))) l
     = layer_of k iu2mm self (Fp (with_items f (pre ++ post))) l).
  { intros l Hg. apply Z.eqb_neq in Hg.
    unfold layer_of, layer_raw_of. cbn [fp with_items GraphicalItems].
    rewrite !List.filter_app. cbn [List.filter]. now rewrite Hg. }
  split; [exact H|].
  intros Hsides front Hg.
  apply (H (if front then F_CrtYd else B_CrtYd)).
  rewrite Hg. destruct front; congruence.
Qed.

End Components.

Lemma component_by_reference_witness :
  pos Iu2Millimeter sample_object (Ref "U1") = Ok (2, 0.5)%float
  /\ max_height sample_store sample_object sample_hmap 1 ([Ref "H1"] ++ Ref "U1" :: [])
     = max_height sample_store sample_object sample_hmap 1
         ([Ref "H1"] ++ Fp sample_footprint :: []).
Proof.
  destruct (component_by_reference cq.accepting Iu2Millimeter 47 46 sample_store
              sample_object "U1" sample_footprint eq_refl) as (Hpos & _ & _ & _ & _ & Hmax).
  split.
  - rewrite Hpos. vm_compute. reflexivity.
  - apply (Hmax eq_refl).
Defined.

Lemma courtyard_ignores_other_side_witness :
  courtyard cq.accepting Iu2Millimeter 47 46 sample_object (Fp sample_footprint) true
  = courtyard cq.accepting Iu2Millimeter 47 46 sample_object
      (Fp (with_items sample_footprint [mk_Drawing 47 sample_rect; mk_Drawing 47 sample_segment]))
      true.
Proof.
  apply (proj2 (courtyard_ignores_other_side cq.accepting Iu2Millimeter 47 46 sample_object
                  sample_footprint [mk_Drawing 47 sample_rect] [mk_Drawing 47 sample_segment]
                  (mk_Drawing 46 sample_circle))
               ltac:(discriminate) true eq_refl).
Defined.

(** ** Layers *)

Section Layers.

Variable k : cq.Kernel.
Variable iu2mm : Z -> float.

Lemma filter_layer_none (l : Z) (drawings : list Drawing) :
  Forall (fun g => GetLayer g <> l) drawings ->
  List.filter (fun g => GetLayer g =? l) drawings = [].
Proof.
  induction 1 as [|g rest Hg _ IH]; simpl; [reflexivity|].
  apply Z.eqb_neq in Hg. now rewrite Hg.
Qed.

(** X14.  A drawing on another layer plays no part in [layer_raw] and
    [layer], wherever it stands among the drawings and whatever its kind. *)
Theorem layer_ignores_other_layers (self : BoardObject) (l : Z)
    (pre post : list Drawing) (g : Drawing) :
  GetLayer g <> l ->
  layer_raw (with_drawings self (pre ++ g :: post)) l
    = layer_raw (with_drawings self (pre ++ post)) l
  /\ layer k iu2mm (with_drawings self (pre ++ g :: post)) l
     = layer k iu2mm (with_drawings self (pre ++ post)) l.
Proof.
  intros Hg. apply Z.eqb_neq in Hg.
  assert (E : layer_raw (with_drawings self (pre ++ g :: post)) l
              = layer_raw (with_drawings self (pre ++ post)) l).
  { unfold layer_raw. cbn [with_drawings board GetDrawings].
    rewrite !List.filter_app. cbn [List.filter]. now rewrite Hg. }
  split; [exact E|]. unfold layer. now rewrite E.
Qed.

(** X15.  On a board without a drawing on the layer, [layer_raw] is empty
    and [layer], like [edges] for that layer, returns the empty sketch
    without a call on the kernel and without a warning. *)
Theorem layer_without_drawings (self : BoardObject) (l : Z) :
  Forall (fun g => GetLayer g <> l) (GetDrawings (board self)) ->
  layer_raw self l = []
  /\ layer k iu2mm self l = ([], Return [])
  /\ edges k iu2mm l self = ([], Return []).
Proof.
  intros Hall.
  assert (E : layer_raw self l = []) by now apply filter_layer_none.
  split; [exact E|]. unfold edges, layer. rewrite E. split; reflexivity.
Qed.

(** X16.  On a board object made by [__init__], positions are relative to the
    auxiliary origin of the board: a component found there is at (0, 0),
    when the unit conversion sends 0 to 0. *)
Theorem pos_at_aux_origin (LoadBoard : string -> BOARD) (name : string)
    (comp : Component) (f : FOOTPRINT) :
  iu2mm 0 = 0%float ->
  fp (Board_init LoadBoard name) comp = Some f ->
  GetPosition f = GetAuxOrigin (LoadBoard name) ->
  exists pt, pos iu2mm (Board_init LoadBoard name) comp = Ok pt
             /\ Point2D_eqb pt (0, 0)%float = true.
Proof.
  intros H0 Hfp Hpos. unfold pos. rewrite Hfp.
  eexists. split; [reflexivity|].
  unfold p. cbn [Board_init core center]. rewrite Hpos, wxPoint_sub_diag.
  cbn [origin x y]. rewrite H0. reflexivity.
Qed.

End Layers.

Lemma layer_ignores_other_layers_witness :
  layer cq.accepting Iu2Millimeter sample_object 44
  = layer cq.accepting Iu2Millimeter
      (with_drawings sample_object [mk_Drawing 44 sample_circle; mk_Drawing 44 sample_rect]) 44.
Proof.
  apply (proj2 (layer_ignores_other_layers cq.accepting Iu2Millimeter sample_object 44
                  [mk_Drawing 44 sample_circle] [mk_Drawing 44 sample_rect]
                  (mk_Drawing 40 (blank (SHAPE_T_OTHER 6))) ltac:(discriminate))).
Defined.

Lemma layer_without_drawings_witness :
  layer cq.accepting Iu2Millimeter sample_object 31 = ([], Return []).
Proof.
  apply (layer_without_drawings cq.accepting Iu2Millimeter sample_object 31).
  repeat apply Forall_cons_2; [| | |apply Forall_nil_2]; discriminate.
Defined.

Lemma pos_at_aux_origin_witness :
  exists pt, pos Iu2Millimeter (Board_init (fun _ => sample_BOARD) "demo.kicad_pcb") (Ref "H1")
             = Ok pt
             /\ Point2D_eqb pt (0, 0)%float = true.
Proof.
  apply (pos_at_aux_origin Iu2Millimeter (fun _ => sample_BOARD) "demo.kicad_pcb"
           (Ref "H1") bare_footprint); reflexivity.
Defined.

(** ** The assembler on moved, reordered and extended inputs *)

Section Assembler.

Variable k : cq.Kernel.
Variable iu2mm : Z -> float.

Lemma p_moved (self : Board) (d l : wxPoint) :
  p iu2mm (move_board d self) (wxPoint_add l d) = p iu2mm self l.
Proof.
  unfold p, move_board, wxPoint_add, wxPoint_sub. cbn [center x y].
  f_equal; [f_equal | f_equal; f_equal]; lia.
Qed.

Lemma convert_step_moved (self : Board) (d : wxPoint) (st : AssemblyState)
    (shape : PCB_SHAPE) :
  convert_step k iu2mm (move_board d self) st (move_shape d shape)
  = convert_step k iu2mm self st shape.
Proof.
  unfold convert_step. cbn [move_shape GetShape GetStart GetEnd GetArcMid GetCenter
                            GetRadius GetBezierC1 GetBezierC2 GetPolyShape].
  destruct (GetShape shape); cbn [map]; rewrite ?p_moved; try reflexivity.
  - unfold minmax, wxPoint_add. cbn [x y fst snd].
    replace (Z.max (x (GetStart shape) + x d) (x (GetEnd shape) + x d)
             - Z.min (x (GetStart shape) + x d) (x (GetEnd shape) + x d))
      with (Z.max (x (GetStart shape)) (x (GetEnd shape))
            - Z.min (x (GetStart shape)) (x (GetEnd shape))) by lia.
    replace (Z.max (y (GetStart shape) + y d) (y (GetEnd shape) + y d)
             - Z.min (y (GetStart shape) + y d) (y (GetEnd shape) + y d))
      with (Z.max (y (GetStart shape)) (y (GetEnd shape))
            - Z.min (y (GetStart shape)) (y (GetEnd shape))) by lia.
    reflexivity.
  - rewrite map_map.
    erewrite (map_ext (fun v => p iu2mm (move_board d self) (wxPoint_add v d)));
      [reflexivity|].
    intros v. apply p_moved.
Qed.

(** X17.  Moving the whole board, origin and shapes alike, by a vector of
    board units changes nothing: the assembler makes the same calls on the
    kernel, issues the same warnings, and returns the same sketch or raises
    the same error. *)
Theorem convert_shape_moved (self : Board) (d : wxPoint) (shapes : list PCB_SHAPE) :
  convert_shape k iu2mm (move_board d self) (map (move_shape d) shapes)
  = convert_shape k iu2mm self shapes.
Proof.
  unfold convert_shape, convert_loop. generalize convert_init.
  induction shapes as [|shape rest IH]; intros st; [reflexivity|].
  cbn [map for_each]. rewrite convert_step_moved.
  destruct (convert_step k iu2mm self st shape) as [st'|e]; simpl; [apply IH | reflexivity].
Qed.

Lemma full_count_Permutation (l l' : list PCB_SHAPE) :
  Permutation l l' -> full_count l = full_count l'.
Proof.
  unfold full_count. induction 1 as [|s l l' _ IH|s s' l|l l' l'' _ IH1 _ IH2]; simpl.
  - reflexivity.
  - destruct (is_full s); simpl; now rewrite IH.
  - destruct (is_full s), (is_full s'); reflexivity.
  - congruence.
Qed.

Lemma has_open_Permutation (l l' : list PCB_SHAPE) :
  Permutation l l' -> has_open l = has_open l'.
Proof.
  unfold has_open. induction 1 as [|s l l' _ IH|s s' l|l l' l'' _ IH1 _ IH2]; simpl.
  - reflexivity.
  - now rewrite IH.
  - destruct (is_open s), (is_open s'); reflexivity.
  - congruence.
Qed.

Lemma emitted_Permutation (self : Board) (l l' : list PCB_SHAPE) :
  Permutation l l' -> Permutation (emitted iu2mm self l) (emitted iu2mm self l').
Proof.
  unfold emitted. induction 1 as [|s l l' _ IH|s s' l|l l' l'' _ IH1 _ IH2]; simpl.
  - reflexivity.
  - now apply Permutation_app_head.
  - apply Permutation_app_swap_app.
  - now transitivity (flat_map (fun shape => chain_edge iu2mm self shape
                                             ++ stamp iu2mm self shape) l').
Qed.

(** X18.  Reordering the shapes of an input on which the loop runs to its
    end cannot bring up an error of the assembler's own: on the reordered
    input the loop returns too, or stops at an exception of the kernel.  When
    it returns, the same calls were made on the kernel, in another order, the
    accumulator has the same [line] and [full], the same warnings are issued,
    and [assemble] is called on the one input exactly when it is on the
    other. *)
Theorem convert_shape_reordered (self : Board) (shapes shapes' : list PCB_SHAPE)
    (st : AssemblyState) :
  Permutation shapes shapes' ->
  convert_loop k iu2mm self convert_init shapes = Return st ->
  (forall e, convert_loop k iu2mm self convert_init shapes' = Raise e ->
             exists name, e = KernelError name)
  /\ (forall st',
        convert_loop k iu2mm self convert_init shapes' = Return st' ->
        Permutation (sketch st) (sketch st')
        /\ line st' = line st
        /\ full st' = full st
        /\ (convert_shape k iu2mm self shapes').1 = (convert_shape k iu2mm self shapes).1
        /\ (convert_shape k iu2mm self shapes').2 =
             (if line st then cq.assemble k (sketch st') else Return (sketch st'))).
Proof.
  intros Hp Hloop. split.
  - intros e He.
    apply convert_loop_Raise in He as [(shape & Hin & Hf)|Hk]; [exfalso | exact Hk].
    apply convert_loop_Return in Hloop. rewrite first_failure_None, Forall_forall in Hloop.
    rewrite <- Hp in Hin. rewrite (Hloop _ Hin) in Hf. discriminate Hf.
  - intros st' Hloop'.
    rewrite (convert_shape_Return _ _ _ _ _ Hloop), (convert_shape_Return _ _ _ _ _ Hloop').
    apply convert_loop_complete in Hloop as (_ & _ & ->).
    apply convert_loop_complete in Hloop' as (_ & _ & ->).
    unfold convert_warnings, final_state. cbn [fst snd sketch line full].
    rewrite (full_count_Permutation _ _ Hp), (has_open_Permutation _ _ Hp).
    repeat split. now apply emitted_Permutation.
Qed.

(** X19.  An exception of the assembler is the error of an unsupported
    kind, raised for a shape of the input that is of that kind, or the index
    error, raised for a polygon of the input without vertices, or it comes
    out of a call on the kernel.  In particular the assertion of [bspline]
    never fails inside the assembler, nor does an array index of its leave
    its bounds. *)
Theorem convert_shape_errors (self : Board) (shapes : list PCB_SHAPE) (e : exn) :
  (convert_shape k iu2mm self shapes).2 = Raise e ->
  ((exists shape, shape ∈ shapes
      /\ ((e = NotImplementedError (GetShape shape) /\ ~ supported shape)
          \/ (e = IndexError /\ GetShape shape = SHAPE_T_POLY /\ GetPolyShape shape = [])))
   \/ (exists name, e = KernelError name))
  /\ e <> AssertionError
  /\ e <> Standard_OutOfRange.
Proof.
  intros H.
  assert (Hcases :
    (exists shape, shape ∈ shapes
      /\ ((e = NotImplementedError (GetShape shape) /\ ~ supported shape)
          \/ (e = IndexError /\ GetShape shape = SHAPE_T_POLY /\ GetPolyShape shape = [])))
    \/ (exists name, e = KernelError name)).
  { unfold convert_shape in H.
    destruct (convert_loop k iu2mm self convert_init shapes) as [st|e'] eqn:E; cbn [snd] in H.
    - right. destruct (line st); [|discriminate H]. now apply invoke_Raise in H.
    - injection H as ->.
      apply convert_loop_Raise in E as [(shape & Hin & Hf)|Hk]; [left | now right].
      exists shape. split; [exact Hin|].
      unfold failure in Hf. unfold supported.
      destruct (GetShape shape) eqn:Ek; try discriminate Hf.
      + destruct (GetPolyShape shape); [|discriminate Hf].
        injection Hf as <-. right. auto.
      + injection Hf as <-. left. split; [reflexivity|]. intros [c Hc]. discriminate Hc. }
  split; [exact Hcases|].
  destruct Hcases as [(shape & _ & [[-> _]|[-> _]])|[name ->]]; split; discriminate.
Qed.

(** X20.  An exception of the loop is final: if the loop stops on some
    shapes, the assembler raises the same exception, without a warning, on
    them and on every input that begins with them. *)
Theorem convert_shape_error_persists (self : Board) (pre post : list PCB_SHAPE) (e : exn) :
  convert_loop k iu2mm self convert_init pre = Raise e ->
  convert_shape k iu2mm self pre = ([], Raise e)
  /\ convert_shape k iu2mm self (pre ++ post) = ([], Raise e).
Proof.
  intros H. split; apply convert_shape_Raise; [exact H|].
  unfold convert_loop in *. now rewrite for_each_app, H.
Qed.

(** X21.  A polygon with vertices is handed to the kernel as one closed
    ring: the mapped vertices in order, followed by the first of them again.
    The assembler answers what the kernel answers to that one call, without
    a warning. *)
Theorem polygon_ring_closed (self : Board) (shape : PCB_SHAPE) :
  GetShape shape = SHAPE_T_POLY ->
  GetPolyShape shape <> [] ->
  exists ring,
    convert_shape k iu2mm self [shape] = ([], cq.polygon k cq.new ring)
    /\ (k cq.new (cq.Polygon ring) = None ->
        convert_shape k iu2mm self [shape] = ([], Return [cq.Polygon ring]))
    /\ length ring = S (length (GetPolyShape shape))
    /\ take (length (GetPolyShape shape)) ring = map (p iu2mm self) (GetPolyShape shape)
    /\ last ring = head ring
    /\ head ring = p iu2mm self <$> head (GetPolyShape shape).
Proof.
  intros Hpoly Hne. destruct (GetPolyShape shape) as [|v vs] eqn:E; [contradiction|].
  exists (map (p iu2mm self) (v :: vs) ++ [p iu2mm self v]).
  assert (Hcall : convert_shape k iu2mm self [shape] =
                    ([], cq.polygon k cq.new (map (p iu2mm self) (v :: vs)
                                              ++ [p iu2mm self v]))).
  { unfold convert_shape, convert_loop. cbn [for_each]. unfold convert_step.
    rewrite Hpoly, E. cbn [map lookup list_lookup convert_init sketch line full].
    destruct (cq.polygon k cq.new _); reflexivity. }
  split; [exact Hcall|]. split; [|split; [|split; [|split]]].
  - intros Hk. rewrite Hcall. unfold cq.polygon, cq.invoke. now rewrite Hk.
  - rewrite length_app, length_map. simpl. lia.
  - rewrite <- (length_map (p iu2mm self)) at 1. apply take_app_length.
  - now rewrite last_snoc.
  - reflexivity.
Qed.

(** X22.  The loop only adds: the accumulator reached on a longer input
    extends the one reached on every beginning of it.  The sketch grows at
    its end, [line] stays set once it is set, and [full] does not decrease. *)
Theorem convert_loop_extends (self : Board) (pre post : list PCB_SHAPE)
    (st : AssemblyState) :
  convert_loop k iu2mm self convert_init (pre ++ post) = Return st ->
  exists st0,
    convert_loop k iu2mm self convert_init pre = Return st0
    /\ sketch st0 `prefix_of` sketch st
    /\ (line st0 = true -> line st = true)
    /\ (full st0 <= full st)%nat.
Proof.
  unfold convert_loop. rewrite for_each_app.
  destruct (for_each (convert_step k iu2mm self) convert_init pre) as [st0|e] eqn:E;
    simpl; [|discriminate].
  intros H. exists st0. split; [reflexivity|].
  apply convert_loop_from in H as ->. cbn [sketch line full].
  split; [|split].
  - now eexists.
  - now intros ->.
  - lia.
Qed.

End Assembler.

Lemma convert_shape_reordered_witness :
  (convert_shape cq.accepting Iu2Millimeter sample_board [sample_rect; sample_circle]).1
  = [msg_multiple]
  /\ (convert_shape cq.accepting Iu2Millimeter sample_board [sample_rect; sample_circle]).2
     = Return (emitted Iu2Millimeter sample_board [sample_rect; sample_circle]).
Proof.
  destruct (convert_shape_reordered cq.accepting Iu2Millimeter sample_board
              [sample_circle; sample_rect] [sample_rect; sample_circle]
              (final_state Iu2Millimeter sample_board [sample_circle; sample_rect])
              (perm_swap sample_rect sample_circle []) eq_refl) as [_ H].
  destruct (H (final_state Iu2Millimeter sample_board [sample_rect; sample_circle]) eq_refl)
    as (_ & _ & _ & Hw & Hr).
  split; [rewrite Hw | rewrite Hr]; reflexivity.
Defined.

Lemma convert_shape_errors_witness :
  (exists shape,
      shape ∈ [sample_segment; blank (SHAPE_T_OTHER 6); empty_polygon]
      /\ ((NotImplementedError (SHAPE_T_OTHER 6) = NotImplementedError (GetShape shape)
           /\ ~ supported shape)
          \/ (NotImplementedError (SHAPE_T_OTHER 6) = IndexError
              /\ GetShape shape = SHAPE_T_POLY /\ GetPolyShape shape = [])))
  \/ (exists name, NotImplementedError (SHAPE_T_OTHER 6) = KernelError name).
Proof.
  apply (convert_shape_errors cq.accepting Iu2Millimeter sample_board
           [sample_segment; blank (SHAPE_T_OTHER 6); empty_polygon]).
  reflexivity.
Defined.

Lemma convert_shape_error_persists_witness :
  convert_shape cq.accepting Iu2Millimeter sample_board
    ([sample_segment; empty_polygon] ++ [sample_circle; blank (SHAPE_T_OTHER 6)])
  = ([], Raise IndexError).
Proof.
  apply (convert_shape_error_persists cq.accepting Iu2Millimeter sample_board
           [sample_segment; empty_polygon] [sample_circle; blank (SHAPE_T_OTHER 6)]).
  reflexivity.
Defined.

Lemma polygon_ring_closed_witness :
  exists ring,
    convert_shape cq.accepting Iu2Millimeter sample_board [sample_triangle]
    = ([], Return [cq.Polygon ring])
    /\ length ring = 4%nat.
Proof.
  destruct (polygon_ring_closed cq.accepting Iu2Millimeter sample_board sample_triangle
              eq_refl ltac:(discriminate)) as (ring & _ & Hret & Hlen & _).
  exists ring. split; [now apply Hret | exact Hlen].
Defined.

Lemma convert_loop_extends_witness :
  exists st0,
    convert_loop cq.accepting Iu2Millimeter sample_board convert_init
      [sample_circle; sample_segment]
      = Return st0
    /\ line st0 = true /\ full st0 = 1%nat.
Proof.
  destruct (convert_loop_extends cq.accepting Iu2Millimeter sample_board
              [sample_circle; sample_segment] [sample_rect]
              (final_state Iu2Millimeter sample_board
                 [sample_circle; sample_segment; sample_rect]) eq_refl)
    as (st0 & Hst0 & _).
  exists st0. split; [exact Hst0|].
  vm_compute in Hst0. injection Hst0 as <-. split; reflexivity.
Defined.
